(** * PV Finder: schema normalisation and query engine

    A shallow embedding of [pv_finder_app.py]: the upload pipeline
    ([_strip_columns], [_apply_header_aliases], [_ensure_required],
    [_parse_code_date_numeric], [_latest_per_pv_flag]) and the query
    evaluation that builds [filtered] from [base] (global search, basic
    filters, advanced filters, date range, keep-latest reduction); then
    the inputs the page offers (the options of a basic filter, the default
    bounds of the date range, the filters of a run) and the Reset, Save
    defaults and Load defaults buttons.

    Modelling conventions.
    - A spreadsheet cell is text or blank.  A blank cell read from the
      sheet is the float [NaN]; a cell of a column synthesised by
      [_ensure_required] is [pd.NA].  Text is ASCII ([string] of bytes),
      so [str.lower] is ASCII lower-casing.
    - The behaviour of pandas is the classic object-dtype one:
      [astype(str)] turns every cell into a Python [str], missing ones
      included.
    - A DataFrame is its list of column labels (order and duplicates
      matter) and its rows; a row carries its index label and its cells,
      positionally under the labels.
    - Numeric code dates are integers ([Z]); the scalar parsers of
      [pd.to_numeric] and of Python's [float] are parameters of the
      development.
    - A boolean Series over [base.index] is a predicate on rows; the
      element-wise [&] and [|] are [andb] and [orb].
    - [st.session_state] is a dictionary from keys to Python values; a
      widget is the value it returns in the run. *)

From Stdlib Require Import List String Ascii ZArith Bool Lia PeanoNat.
From Stdlib Require Import Permutation Sorted DecimalString.
Import ListNotations.
Open Scope string_scope.
Open Scope list_scope.

(** ** Text *)

Module Text.

Definition is_upper (c : ascii) : bool :=
  let n := nat_of_ascii c in (65 <=? n)%nat && (n <=? 90)%nat.

(** [str.lower] on one ASCII character. *)
Definition lower_ascii (c : ascii) : ascii :=
  if is_upper c then ascii_of_nat (nat_of_ascii c + 32) else c.

Fixpoint lower (s : string) : string :=
  match s with
  | EmptyString => EmptyString
  | String c s' => String (lower_ascii c) (lower s')
  end.

(** The ASCII characters that [str.strip()] removes. *)
Definition is_space (c : ascii) : bool :=
  let n := nat_of_ascii c in
  ((9 <=? n)%nat && (n <=? 13)%nat) || ((28 <=? n)%nat && (n <=? 32)%nat).

Fixpoint lstrip (s : string) : string :=
  match s with
  | EmptyString => EmptyString
  | String c s' => if is_space c then lstrip s' else s
  end.

Fixpoint rstrip (s : string) : string :=
  match s with
  | EmptyString => EmptyString
  | String c s' =>
      match rstrip s' with
      | EmptyString => if is_space c then EmptyString else String c EmptyString
      | t => String c t
      end
  end.

Definition strip (s : string) : string := rstrip (lstrip s).

(** [s.split(sep)] for a one-character separator: always at least one
    piece. *)
Fixpoint split (sep : ascii) (s : string) : list string :=
  match s with
  | EmptyString => [EmptyString]
  | String c s' =>
      if Ascii.eqb c sep then EmptyString :: split sep s'
      else match split sep s' with
           | [] => [String c EmptyString]
           | p :: ps => String c p :: ps
           end
  end.

(** Python truthiness of a [str]. *)
Definition nonempty (s : string) : bool :=
  match s with EmptyString => false | _ => true end.

Fixpoint is_prefix (p s : string) : bool :=
  match p, s with
  | EmptyString, _ => true
  | String a p', String b s' => Ascii.eqb a b && is_prefix p' s'
  | String _ _, EmptyString => false
  end.

(** [p in s]: [p] occurs in [s] as a contiguous substring. *)
Fixpoint is_infix (p s : string) : bool :=
  is_prefix p s ||
  match s with
  | EmptyString => false
  | String _ s' => is_infix p s'
  end.

(** Decimal integer literals, an instance for the numeric parsers. *)
Definition digit_of (c : ascii) : option Z :=
  let n := nat_of_ascii c in
  if (48 <=? n)%nat && (n <=? 57)%nat then Some (Z.of_nat (n - 48)) else None.

Fixpoint digits (acc : Z) (s : string) : option Z :=
  match s with
  | EmptyString => Some acc
  | String c s' =>
      match digit_of c with
      | Some d => digits (10 * acc + d) s'
      | None => None
      end
  end.

Definition int_literal (s : string) : option Z :=
  match s with
  | EmptyString => None
  | String "-"%char (String c s') =>
      option_map Z.opp (digits 0 (String c s'))
  | _ => digits 0 s
  end.

End Text.

(** ** Cells and their text rendering *)

Inductive cell : Type :=
| NaN                      (* blank cell of an uploaded column *)
| NA                       (* pd.NA, written by [_ensure_required] *)
| Str (s : string).

Definition cell_eqb (a b : cell) : bool :=
  match a, b with
  | NaN, NaN => true
  | NA, NA => true
  | Str s, Str t => String.eqb s t
  | _, _ => false
  end.

Definition isna (c : cell) : bool :=
  match c with Str _ => false | _ => true end.

(** [Series.astype(str)] on one value: [str(float('nan'))], [str(pd.NA)],
    or the text itself. *)
Definition astype_str (c : cell) : string :=
  match c with
  | NaN => "nan"
  | NA => "<NA>"
  | Str s => s
  end.

(** ** Exceptions *)

Inductive exn : Type :=
| KeyError (label : string)          (* the label is not a column *)
| NotUnique (label : string)         (* the label names several columns *)
| PatternNotModelled (pat : string). (* regex syntax beyond literals and "." *)

Inductive result (A : Type) : Type :=
| Ok (a : A)
| Raise (e : exn).
Arguments Ok {A} a.
Arguments Raise {A} e.

Definition bind {A B} (m : result A) (k : A -> result B) : result B :=
  match m with
  | Ok a => k a
  | Raise e => Raise e
  end.

Notation "x <- m ;; k" := (bind m (fun x => k))
  (at level 61, m at next level, right associativity).

(** ** Frames *)

Record Row : Type := mkRow { index : nat; cells : list cell }.

Record Frame (R : Type) : Type := mkFrame { columns : list string; rows : list R }.
Arguments mkFrame {R} columns rows.
Arguments columns {R} f.
Arguments rows {R} f.

Definition DataFrame : Type := Frame Row.

Definition REQUIRED_COLUMNS : list string :=
  [ "PVNumber"; "PVStatus"; "Description"; "DocumentType"; "NoteForMarketing";
    "CaseTypeDescriptor"; "AirFillDescriptor"; "CodeDate"; "SalesClass"; "Size";
    "Shape"; "CasesPerLayer(TI)"; "HI(Layers/Pallet)";
    "TotalNumberOfCasesPerPallet"; "BagsOrTraysPerLayer" ].

(** The alias patterns, as written in the source. *)
Definition HEADER_ALIASES : list (string * string) :=
  [ ("PVNumber", "pv number|pv_number|pv no|pvno|pv num|pv id");
    ("PVStatus", "pv status|status|pv details|pv_status");
    ("Description", "description|desc|product description");
    ("DocumentType", "document type|doctype|doc type|doc_type");
    ("NoteForMarketing", "note for marketing|marketing note|notes marketing|note_marketing");
    ("CaseTypeDescriptor", "case type descriptor|case type|case descriptor");
    ("AirFillDescriptor", "air fill descriptor|airfill descriptor|air fill|air_fill");
    ("CodeDate", "code date|codedate|code_date|date code|mfg date");
    ("SalesClass", "sales class|sales_class|class");
    ("Size", "size|pack size|net weight|weight");
    ("Shape", "shape|format");
    ("CasesPerLayer(TI)", "cases per layer|cases/layer|ti|cases_per_layer|cases per layer \(ti\)");
    ("HI(Layers/Pallet)", "hi|layers per pallet|layers/pallet|layers_per_pallet");
    ("TotalNumberOfCasesPerPallet", "total cases per pallet|total number of cases per pallet|total cases/pallet");
    ("BagsOrTraysPerLayer", "bags per layer|trays per layer|bags_or_trays_per_layer|bags/trays per layer") ].

(** Positions of a label among the column labels. *)
Fixpoint positions_from (i : nat) (c : string) (cols : list string) : list nat :=
  match cols with
  | [] => []
  | x :: xs => (if String.eqb x c then [i] else []) ++ positions_from (S i) c xs
  end.

Definition positions (c : string) (cols : list string) : list nat :=
  positions_from 0 c cols.

Definition has_column (c : string) (cols : list string) : bool :=
  existsb (String.eqb c) cols.

(** A Python dict as an association list in insertion order: assigning an
    existing key keeps its place and replaces its value. *)
Fixpoint dict_set {V} (k : string) (v : V) (d : list (string * V)) : list (string * V) :=
  match d with
  | [] => [(k, v)]
  | (k', v') :: d' =>
      if String.eqb k' k then (k, v) :: d' else (k', v') :: dict_set k v d'
  end.

Fixpoint dict_get {V} (k : string) (d : list (string * V)) : option V :=
  match d with
  | [] => None
  | (k', v) :: d' => if String.eqb k' k then Some v else dict_get k d'
  end.

(** [df.rename(columns=m)]. *)
Definition rename_columns {R} (m : list (string * string)) (df : Frame R) : Frame R :=
  mkFrame
    (map (fun c => match dict_get c m with Some c' => c' | None => c end) (columns df))
    (rows df).

Definition _strip_columns (df : DataFrame) : DataFrame :=
  rename_columns
    (fold_left (fun m c => dict_set c (Text.strip c) m) (columns df) [])
    df.

(** The spellings a pattern of [HEADER_ALIASES] accepts: the patterns are
    alternations of literal texts, with "\(" and "\)" for parentheses. *)
Fixpoint unescape (s : string) : string :=
  match s with
  | EmptyString => EmptyString
  | String "\"%char (String c s') => String c (unescape s')
  | String c s' => String c (unescape s')
  end.

Definition alias_spellings (pattern : string) : list string :=
  map unescape (Text.split "|"%char pattern).

(** [re.compile("^(?:" + pattern + ")$", re.IGNORECASE).match(low)]: the
    whole of [low] is one of the spellings, case-insensitively; "$" also
    matches before one final newline. *)
Definition alias_match (pattern low : string) : bool :=
  existsb
    (fun sp =>
       String.eqb (Text.lower low) (Text.lower sp)
       || String.eqb (Text.lower low)
                     (Text.lower sp ++ String (ascii_of_nat 10) EmptyString)%string)
    (alias_spellings pattern).

Definition lowered (cols : list string) : list (string * string) :=
  fold_left (fun d c => dict_set (Text.lower c) c d) cols [].

Definition alias_rename_map (cols : list string) : list (string * string) :=
  fold_left
    (fun rename_map '(canon, pattern) =>
       if has_column canon cols then rename_map
       else match find (fun '(low, _) => alias_match pattern low) (lowered cols) with
            | Some (_, orig) => dict_set orig canon rename_map
            | None => rename_map
            end)
    HEADER_ALIASES [].

Definition _apply_header_aliases (df : DataFrame) : DataFrame :=
  rename_columns (alias_rename_map (columns df)) df.

(** [df[col] = pd.NA] for a label that is not yet a column. *)
Definition add_na_column (col : string) (df : DataFrame) : DataFrame :=
  mkFrame (columns df ++ [col])
          (map (fun r => mkRow (index r) (cells r ++ [NA])) (rows df)).

(** [df[labels]]: for each label in turn, every column that bears it. *)
Definition take_columns (labels : list string) (df : DataFrame) : DataFrame :=
  let idxs := flat_map (fun c => positions c (columns df)) labels in
  mkFrame (map (fun i => nth i (columns df) EmptyString) idxs)
          (map (fun r => mkRow (index r) (map (fun i => nth i (cells r) NaN) idxs))
               (rows df)).

Definition _ensure_required (df : DataFrame) : DataFrame :=
  let df' :=
    fold_left
      (fun d col => if has_column col (columns d) then d else add_na_column col d)
      REQUIRED_COLUMNS df in
  take_columns REQUIRED_COLUMNS df'.

Definition normalize (raw : DataFrame) : DataFrame :=
  _ensure_required (_apply_header_aliases (_strip_columns raw)).

(** ** Derived columns *)

(** A value of the float column [CodeDate_num]. *)
Inductive num : Type :=
| NumNaN                   (* float nan: blank or unparseable text *)
| NumNA                    (* pd.NA, when the frame has no CodeDate column *)
| Num (z : Z).

Definition num_value (n : num) : option Z :=
  match n with Num z => Some z | _ => None end.

Record Dated : Type := mkDated { d_row :> Row; CodeDate_num : num }.

Record Flagged : Type := mkFlagged { f_dated :> Dated; IsLatestPerPV : bool }.

(** [pd.to_numeric(..., errors="coerce")] on one cell; [parse] is its
    scalar parser on text, [None] when the text is not a number. *)
Definition to_numeric (parse : string -> option Z) (c : cell) : num :=
  match c with
  | Str s => match parse s with Some z => Num z | None => NumNaN end
  | _ => NumNaN
  end.

Definition _parse_code_date_numeric (parse : string -> option Z) (df : DataFrame)
  : result (Frame Dated) :=
  match positions "CodeDate" (columns df) with
  | [] => Ok (mkFrame (columns df) (map (fun r => mkDated r NumNA) (rows df)))
  | [i] =>
      Ok (mkFrame (columns df)
            (map (fun r => mkDated r (to_numeric parse (nth i (cells r) NaN))) (rows df)))
  | _ => Raise (NotUnique "CodeDate")
  end.

(** *** Sorting and duplicates *)

Section Sorting.
Context {A : Type} (leb : A -> A -> bool).

Fixpoint insert (x : A) (l : list A) : list A :=
  match l with
  | [] => [x]
  | y :: l' => if leb x y then x :: l else y :: insert x l'
  end.

(** A stable sort: of two rows that compare equal, the one that comes
    first in the input comes first in the output. *)
Fixpoint stable_sort (l : list A) : list A :=
  match l with
  | [] => []
  | x :: l' => insert x (stable_sort l')
  end.
End Sorting.

Section Duplicated.
Context {A : Type} (key : A -> cell).

(** [duplicated(subset=[k], keep="first")]: a row is a duplicate when
    its key was seen on an earlier row. *)
Fixpoint duplicated_from (seen : list cell) (l : list A) : list bool :=
  match l with
  | [] => []
  | x :: l' =>
      existsb (cell_eqb (key x)) seen :: duplicated_from (key x :: seen) l'
  end.

Definition duplicated (l : list A) : list bool := duplicated_from [] l.

(** [drop_duplicates(subset=[k], keep="first")]: the rows that are not
    duplicates. *)
Definition drop_duplicates_from (seen : list cell) (l : list A) : list A :=
  map fst (filter (fun xb => negb (snd xb)) (combine l (duplicated_from seen l))).

Definition drop_duplicates (l : list A) : list A := drop_duplicates_from [] l.
End Duplicated.

(** Ascending order of the key column, missing keys last. *)
Definition key_compare (a b : cell) : comparison :=
  match a, b with
  | Str s, Str t => String.compare s t
  | Str _, _ => Lt
  | _, Str _ => Gt
  | _, _ => Eq
  end.

(** Descending order of the numeric column, missing values last. *)
Definition num_desc_leb (a b : num) : bool :=
  match num_value a, num_value b with
  | Some x, Some y => (y <=? x)%Z
  | Some _, None => true
  | None, Some _ => false
  | None, None => true
  end.

Definition cell_at (i : nat) (r : Row) : cell := nth i (cells r) NaN.

(** The value of the column at position [i], as a key for duplicates. *)
Definition dated_key (i : nat) (r : Dated) : cell := cell_at i r.
Definition flagged_key (i : nat) (r : Flagged) : cell := cell_at i r.

(** [sort_values(["PVNumber","CodeDate_num"], ascending=[True,False])],
    with the PVNumber column at position [i]. *)
Definition sort_leb (i : nat) (a b : Dated) : bool :=
  match key_compare (cell_at i a) (cell_at i b) with
  | Lt => true
  | Gt => false
  | Eq => num_desc_leb (CodeDate_num a) (CodeDate_num b)
  end.

Definition sort_values (i : nat) (l : list Dated) : list Dated :=
  stable_sort (sort_leb i) l.

(** [tmp["IsLatestPerPV"] = ~tmp.duplicated(subset=[k], keep="first")]. *)
Definition flag_first (key : Dated -> cell) (seen : list cell) (l : list Dated)
  : list Flagged :=
  map (fun rb => mkFlagged (fst rb) (negb (snd rb)))
      (combine l (duplicated_from key seen l)).

Definition _latest_per_pv_flag (df : Frame Dated) : result (Frame Flagged) :=
  match positions "PVNumber" (columns df) with
  | [] => Ok (mkFrame (columns df) (map (fun r => mkFlagged r false) (rows df)))
  | [i] =>
      let tmp := sort_values i (rows df) in
      Ok (mkFrame (columns df) (flag_first (dated_key i) [] tmp))
  | _ => Raise (NotUnique "PVNumber")
  end.

(** The upload pipeline, as run on the sheet that was read: the three
    steps of [normalize], then the two derived columns. *)
Definition load (parse : string -> option Z) (raw : DataFrame) : result (Frame Flagged) :=
  df <- _parse_code_date_numeric parse (normalize raw) ;;
  _latest_per_pv_flag df.

(** ** Query evaluation *)

Record Cond : Type := mkCond { mode : string; value : string }.

Record Query : Type := mkQuery {
  query : string;
  basic_filters : list (string * list string);
  adv_filters : list (string * Cond);
  min_str : string;
  max_str : string;
  keep_latest_only : bool
}.

Definition Mask : Type := Flagged -> bool.

(** [base[col]] for a label of a cell column: the labels the page offers
    as filter keys are the required ones.  A label borne by two columns
    gives a DataFrame, on which the string methods fail. *)
Definition getitem (base : Frame Flagged) (col : string) : result (Flagged -> cell) :=
  match positions col (columns base) with
  | [] => Raise (KeyError col)
  | [i] => Ok (fun r : Flagged => cell_at i r)
  | _ => Raise (NotUnique col)
  end.

(** *** Regular expressions

    [Series.str.contains(pat)] searches with [re.search] ([regex=True] is
    the default).  The patterns modelled are sequences of ordinary
    characters and ".", which matches any character but a newline; a
    pattern with any other special character is reported as not
    modelled. *)

Inductive atom : Type :=
| Lit (c : ascii)
| AnyChar.

Definition is_special (c : ascii) : bool :=
  existsb (Ascii.eqb c)
    [ "."%char; "^"%char; "$"%char; "*"%char; "+"%char; "?"%char; "{"%char;
      "}"%char; "["%char; "]"%char; "\"%char; "|"%char; "("%char; ")"%char ].

Fixpoint parse_pattern (pat : string) : option (list atom) :=
  match pat with
  | EmptyString => Some []
  | String c pat' =>
      match parse_pattern pat' with
      | None => None
      | Some p =>
          if Ascii.eqb c "."%char then Some (AnyChar :: p)
          else if is_special c then None
          else Some (Lit c :: p)
      end
  end.

Definition re_compile (pat : string) : result (list atom) :=
  match parse_pattern pat with
  | Some p => Ok p
  | None => Raise (PatternNotModelled pat)
  end.

Definition atom_matches (ignorecase : bool) (a : atom) (x : ascii) : bool :=
  match a with
  | Lit c =>
      if ignorecase then Ascii.eqb (Text.lower_ascii c) (Text.lower_ascii x)
      else Ascii.eqb c x
  | AnyChar => negb (Ascii.eqb x (ascii_of_nat 10))
  end.

Fixpoint match_here (ignorecase : bool) (p : list atom) (s : string) : bool :=
  match p, s with
  | [], _ => true
  | a :: p', String x s' => atom_matches ignorecase a x && match_here ignorecase p' s'
  | _ :: _, EmptyString => false
  end.

Fixpoint re_search (ignorecase : bool) (p : list atom) (s : string) : bool :=
  match_here ignorecase p s ||
  match s with
  | EmptyString => false
  | String _ s' => re_search ignorecase p s'
  end.

(** [series.str.contains(pat, case=case, na=False)] on a series of
    strings. *)
Definition str_contains (pat : string) (case : bool) : result (string -> bool) :=
  p <- re_compile pat ;;
  Ok (re_search (negb case) p).

(** [series.isin(values)]. *)
Definition isin (values : list string) (s : string) : bool :=
  existsb (String.eqb s) values.

(** *** The masks *)

Definition global_mask (base : Frame Flagged) (q : string) : result Mask :=
  fold_left
    (fun acc col =>
       mm <- acc ;;
       series <- getitem base col ;;
       hit <- str_contains q true ;;
       Ok (fun r => mm r || hit (Text.lower (astype_str (series r)))))
    REQUIRED_COLUMNS (Ok (fun _ => false)).

Definition basic_step (base : Frame Flagged) (acc : result Mask)
  (f : string * list string) : result Mask :=
  mask <- acc ;;
  match snd f with
  | [] => Ok mask
  | selected =>
      series <- getitem base (fst f) ;;
      Ok (fun r => mask r && isin selected (astype_str (series r)))
  end.

Definition in_list_items (val : string) : list string :=
  map Text.strip
    (filter (fun v => Text.nonempty (Text.strip v)) (Text.split ";"%char val)).

Definition adv_step (base : Frame Flagged) (acc : result Mask)
  (f : string * Cond) : result Mask :=
  mask <- acc ;;
  let val := value (snd f) in
  series <- getitem base (fst f) ;;
  if String.eqb (mode (snd f)) "contains" then
    hit <- str_contains val false ;;
    Ok (fun r => mask r && hit (astype_str (series r)))
  else if String.eqb (mode (snd f)) "equals" then
    Ok (fun r => mask r
                 && String.eqb (Text.lower (astype_str (series r))) (Text.lower val))
  else if String.eqb (mode (snd f)) "in list" then
    Ok (fun r => mask r && isin (in_list_items val) (astype_str (series r)))
  else Ok mask.

Definition in_range (lo hi : Z) (n : num) : bool :=
  match n with
  | Num v => (lo <=? v)%Z && (v <=? hi)%Z
  | _ => false
  end.

(** The date range: any exception inside the [try] leaves the mask as it
    was; [float] is Python's [float] on text, [None] for [ValueError];
    [astype(float)] raises on a column that holds [pd.NA]. *)
Definition date_step (float : string -> option Z) (base : Frame Flagged)
  (min_s max_s : string) (mask : Mask) : Mask :=
  if Text.nonempty min_s && Text.nonempty max_s then
    match float min_s, float max_s with
    | Some min_n, Some max_n =>
        if existsb (fun r : Flagged =>
                     match CodeDate_num r with NumNA => true | _ => false end)
                   (rows base)
        then mask
        else fun r => mask r && in_range min_n max_n (CodeDate_num r)
    | _, _ => mask
    end
  else mask.

Definition flagged_leb (i : nat) (a b : Flagged) : bool := sort_leb i a b.

(** The mask after the global search, the basic and the advanced
    filters. *)
Definition filters_mask (base : Frame Flagged) (Q : Query) : result Mask :=
  let q := Text.lower (Text.strip (query Q)) in
  let mask : Mask := fun _ => true in
  mask <- (if Text.nonempty q
           then mm <- global_mask base q ;; Ok (fun r => mask r && mm r)
           else Ok mask) ;;
  mask <- fold_left (basic_step base) (basic_filters Q) (Ok mask) ;;
  fold_left (adv_step base) (adv_filters Q) (Ok mask).

(** The mask of a query, all four categories. *)
Definition query_mask (float : string -> option Z) (base : Frame Flagged) (Q : Query)
  : result Mask :=
  mask <- filters_mask base Q ;;
  Ok (date_step float base (min_str Q) (max_str Q) mask).

(** The evaluation of a query: from [base] to [filtered]. *)
Definition evaluate (float : string -> option Z) (base : Frame Flagged) (Q : Query)
  : result (Frame Flagged) :=
  mask <- query_mask float base Q ;;
  let filtered := filter mask (rows base) in
  if keep_latest_only Q then
    match positions "PVNumber" (columns base) with
    | [] => Raise (KeyError "PVNumber")
    | [i] =>
        let sorted := stable_sort (flagged_leb i) filtered in
        Ok (mkFrame (columns base)
              (drop_duplicates (flagged_key i) sorted))
    | _ => Raise (NotUnique "PVNumber")
    end
  else Ok (mkFrame (columns base) filtered).

(** ** The inputs the page offers *)

(** [sorted] on texts: ascending order of the code points. *)
Definition str_leb (a b : string) : bool :=
  match String.compare a b with Gt => false | _ => true end.

(** [Series.unique()]: the values in the order of their first
    appearance. *)
Fixpoint unique_from (seen l : list string) : list string :=
  match l with
  | [] => []
  | x :: l' =>
      if isin seen x then unique_from seen l' else x :: unique_from (x :: seen) l'
  end.

Definition unique (l : list string) : list string := unique_from [] l.

(** The options of the multiselect of a basic column:
    [sorted(base[col].dropna().astype(str).unique()) if col in base.columns
    else []]. *)
Definition options (base : Frame Flagged) (col : string) : result (list string) :=
  if has_column col (columns base) then
    series <- getitem base col ;;
    Ok (stable_sort str_leb
          (unique (map astype_str
                     (filter (fun c => negb (isna c)) (map series (rows base))))))
  else Ok [].






(** The columns that have a multiselect. *)
Definition basic_cols : list string :=
  [ "PVNumber"; "PVStatus"; "DocumentType"; "CaseTypeDescriptor"; "SalesClass";
    "Shape"; "Size" ].

(** The basic filters of a run: for each basic column, what its
    multiselect returns. *)
Definition new_bf (multiselect : string -> list string) : list (string * list string) :=
  map (fun col => (col, multiselect col)) basic_cols.

(** The advanced filters of a run: for each required column, the operator
    of its selectbox and the text of its input, kept when the operator is
    not "(none)" and the text is not empty. *)
Definition new_af (selectbox text_input : string -> string) : list (string * Cond) :=
  flat_map
    (fun col =>
       if negb (String.eqb (selectbox col) "(none)") && Text.nonempty (text_input col)
       then [(col, mkCond (selectbox col) (text_input col))]
       else [])
    REQUIRED_COLUMNS.

(** The query of a run, from what the widgets return. *)
Definition page_query (text : string) (multiselect : string -> list string)
  (selectbox text_input : string -> string) (lo hi : string) (keep : bool) : Query :=
  mkQuery text (new_bf multiselect) (new_af selectbox text_input) lo hi keep.

(** ** The session state and the saved defaults *)

(** The Python values kept in [st.session_state]. *)
#[warnings="-register-all"] Inductive state_value : Type :=
| VNone
| VBool (b : bool)
| VStr (s : string)
| VList (l : list state_value)
| VDict (d : list (string * state_value)).

Definition session_state : Type := list (string * state_value).

(** [d.get(k, default)]. *)
Definition dict_get_default {V} (k : string) (default : V) (d : list (string * V)) : V :=
  match dict_get k d with
  | Some v => v
  | None => default
  end.

(** [if k in d: del d[k]]. *)
Fixpoint dict_del {V} (k : string) (d : list (string * V)) : list (string * V) :=
  match d with
  | [] => []
  | (k', v) :: d' =>
      if String.eqb k' k then dict_del k d' else (k', v) :: dict_del k d'
  end.

(** The five keys of a saved query, each with the value it is read with
    when absent. *)
Definition session_defaults : list (string * state_value) :=
  [ ("query", VStr EmptyString);
    ("basic_filters", VDict []);
    ("adv_filters", VDict []);
    ("keep_latest_only", VBool false);
    ("date_range", VNone) ].

(** The Reset button. *)
Definition reset (st : session_state) : session_state :=
  fold_left (fun s k => dict_del k s)
    ["query"; "basic_filters"; "adv_filters"; "keep_latest_only"; "date_range"] st.

(** The Save defaults button. *)
Definition save_defaults (st : session_state) : session_state :=
  dict_set "defaults"
    (VDict
       [ ("query", dict_get_default "query" (VStr EmptyString) st);
         ("basic_filters", dict_get_default "basic_filters" (VDict []) st);
         ("adv_filters", dict_get_default "adv_filters" (VDict []) st);
         ("keep_latest_only", dict_get_default "keep_latest_only" (VBool false) st);
         ("date_range", dict_get_default "date_range" VNone st) ])
    st.

(** The Load defaults button; [None] when the value under "defaults" is
    not a dict, on which [d.get] fails. *)
Definition load_defaults (st : session_state) : option session_state :=
  match dict_get_default "defaults" (VDict []) st with
  | VDict d =>
      let st := dict_set "query" (dict_get_default "query" (VStr EmptyString) d) st in
      let st := dict_set "basic_filters"
                  (dict_get_default "basic_filters" (VDict []) d) st in
      let st := dict_set "adv_filters" (dict_get_default "adv_filters" (VDict []) d) st in
      let st := dict_set "keep_latest_only"
                  (dict_get_default "keep_latest_only" (VBool false) d) st in
      Some (dict_set "date_range" (dict_get_default "date_range" VNone d) st)
  | _ => None
  end.

(** ** Notions used to state the properties *)

(** [l1] is [l2] with some elements left out, the others in place. *)
Inductive subsequence {A : Type} : list A -> list A -> Prop :=
| subseq_nil : subsequence [] []
| subseq_skip x l1 l2 : subsequence l1 l2 -> subsequence l1 (x :: l2)
| subseq_keep x l1 l2 : subsequence l1 l2 -> subsequence (x :: l1) (x :: l2).

Fixpoint is_subsequence (l1 l2 : list nat) : bool :=
  match l1, l2 with
  | [], _ => true
  | _ :: _, [] => false
  | x :: l1', y :: l2' =>
      if Nat.eqb x y then is_subsequence l1' l2' else is_subsequence l1 l2'
  end.

(** The order of two numeric values in which a missing value is below
    every number. *)
Definition num_le (a b : num) : Prop :=
  match num_value a, num_value b with
  | None, _ => True
  | Some _, None => False
  | Some x, Some y => (x <= y)%Z
  end.

(** Two numeric values are the same number, or both missing. *)
Definition same_value (a b : num) : bool :=
  match num_value a, num_value b with
  | Some x, Some y => (x =? y)%Z
  | None, None => true
  | _, _ => false
  end.

(** The labels [_ensure_required] adds to the columns [cols]. *)
Fixpoint missing (labels cols : list string) : list string :=
  match labels with
  | [] => []
  | c :: labels' =>
      if has_column c cols then missing labels' cols
      else c :: missing labels' (cols ++ [c])
  end.

(** The index labels of a sheet as read: 0, 1, 2, ... *)
Definition RangeIndex (l : list Row) : Prop :=
  map index l = seq 0 (List.length l).

(** Every row has one cell per column label. *)
Definition well_formed (df : DataFrame) : Prop :=
  Forall (fun r => List.length (cells r) = List.length (columns df)) (rows df).

(** The query with its date range cleared. *)
Definition without_range (Q : Query) : Query :=
  mkQuery (query Q) (basic_filters Q) (adv_filters Q) EmptyString EmptyString
          (keep_latest_only Q).

(** A pattern atom with its character lower-cased. *)
Definition lower_atom (a : atom) : atom :=
  match a with
  | Lit c => Lit (Text.lower_ascii c)
  | AnyChar => AnyChar
  end.

(** The atoms of a text read as a literal. *)
Fixpoint literal_atoms (s : string) : list atom :=
  match s with
  | EmptyString => []
  | String c s' => Lit c :: literal_atoms s'
  end.

(** The text holds a character that is special in a regular expression. *)
Fixpoint has_special (s : string) : bool :=
  match s with
  | EmptyString => false
  | String c s' => is_special c || has_special s'
  end.

(** Two rows that every operator renders alike: the same texts under
    [astype(str)], cell by cell, and the same numeric code date. *)
Definition same_render (r r' : Flagged) : Prop :=
  map astype_str (cells r) = map astype_str (cells r') /\
  CodeDate_num r = CodeDate_num r'.

(** The query with keep-latest switched off: its result is the rows that
    satisfy the mask. *)
Definition without_keep (Q : Query) : Query :=
  mkQuery (query Q) (basic_filters Q) (adv_filters Q) (min_str Q) (max_str Q) false.

Definition is_ok {A} (m : result A) : bool :=
  match m with Ok _ => true | Raise _ => false end.

(** The keep-latest reduction in the words of the specification: the rows
    that satisfy the mask and bear the flag computed over the full
    table. *)
Definition keep_flagged (mask : Mask) (base : Frame Flagged) : list Flagged :=
  filter (fun r => mask r && IsLatestPerPV r) (rows base).

(** The index labels of the rows, in order. *)
Definition labels_of (l : list Flagged) : list nat :=
  map (fun r : Flagged => index r) l.

(** ** Sample tables *)

(** Three rows of one PVNumber and one of another. *)
Definition C2_table : Frame Dated :=
  mkFrame ["PVNumber"; "CodeDate"]
    [ mkDated (mkRow 0 [Str "P1"; Str "20230101"]) (Num 20230101);
      mkDated (mkRow 1 [Str "P2"; NaN]) NumNaN;
      mkDated (mkRow 2 [Str "P1"; Str "20240101"]) (Num 20240101);
      mkDated (mkRow 3 [Str "P1"; Str "20240101"]) (Num 20240101) ].

(** A sheet with the headers "Shape" and "Shape " (a trailing space). *)
Definition C3_sheet : DataFrame :=
  mkFrame ["PVNumber"; "Shape"; "Shape "]
    [ mkRow 0 [Str "P1"; Str "Round"; Str "Square"] ].

(** A sheet with a text date, a blank date and a date that is no number. *)
Definition C8_sheet : DataFrame :=
  mkFrame ["PVNumber"; "CodeDate"]
    [ mkRow 0 [Str "P1"; Str "20240101"];
      mkRow 1 [Str "P1"; NaN];
      mkRow 2 [Str "P2"; Str "n/a"] ].

(** A table as built at upload: two rows, one without a date. *)
Definition C6_base : Frame Flagged :=
  mkFrame ["PVNumber"; "CodeDate"]
    [ mkFlagged (mkDated (mkRow 0 [Str "P1"; Str "20230301"]) (Num 20230301)) true;
      mkFlagged (mkDated (mkRow 1 [Str "P2"; NaN]) NumNaN) true ].

(** An all-empty query, as the page builds it: blank search box, every
    multiselect empty, no advanced filter, no bounds. *)
Definition C9_query : Query :=
  mkQuery "  " [("PVNumber", []); ("Shape", [])] [] EmptyString EmptyString false.

(** A sheet for the text filters: three descriptions and three shapes; the
    Size column is not in the sheet, and one Shape cell is blank. *)
Definition C4_sheet : DataFrame :=
  mkFrame ["PVNumber"; "Description"; "Shape"]
    [ mkRow 0 [Str "P1"; Str "abc"; Str "Round"];
      mkRow 1 [Str "P2"; Str "a.c"; Str "round"];
      mkRow 2 [Str "P3"; Str "Cookie"; NaN] ].

(** The table the upload builds from [C4_sheet]. *)
Definition C4_base : Frame Flagged :=
  match load Text.int_literal C4_sheet with
  | Ok base => base
  | Raise _ => mkFrame [] []
  end.

(** Two records of one PVNumber; only the older one is described as
    "old". *)
Definition C1_sheet : DataFrame :=
  mkFrame ["PVNumber"; "CodeDate"; "Description"]
    [ mkRow 0 [Str "P1"; Str "20240101"; Str "new"];
      mkRow 1 [Str "P1"; Str "20230101"; Str "old"] ].

Definition C1_base : Frame Flagged :=
  match load Text.int_literal C1_sheet with
  | Ok base => base
  | Raise _ => mkFrame [] []
  end.

Definition C1_query : Query :=
  mkQuery "old" [] [] EmptyString EmptyString true.

(** A sheet, and the same rows as a table, with P2 before P1. *)
Definition C7_sheet : DataFrame :=
  mkFrame ["PVNumber"; "CodeDate"]
    [ mkRow 0 [Str "P2"; Str "20230101"];
      mkRow 1 [Str "P1"; Str "20240101"] ].

Definition C7_table : Frame Flagged :=
  mkFrame ["PVNumber"; "CodeDate"]
    [ mkFlagged (mkDated (mkRow 0 [Str "P2"; Str "20230101"]) (Num 20230101)) true;
      mkFlagged (mkDated (mkRow 1 [Str "P1"; Str "20240101"]) (Num 20240101)) true ].

Definition C7_query (keep : bool) : Query :=
  mkQuery EmptyString [] [] EmptyString EmptyString keep.

(** A sheet with the headers "CodeDate" and " CodeDate". *)
Definition C8_twice : DataFrame :=
  mkFrame ["PVNumber"; "CodeDate"; " CodeDate"]
    [ mkRow 0 [Str "P1"; Str "20240101"; Str "20230101"] ].

(** The sheets of the worked examples. *)
Definition sheet_headers : DataFrame :=
  mkFrame ["PV No"; "Random Column"; "  format "]
    [ mkRow 0 [Str "P1"; Str "x"; Str "Round"] ].

Definition sheet_shapes : DataFrame :=
  mkFrame ["PVNumber"; "Shape"; "Description"; "CodeDate"]
    [ mkRow 0 [Str "P1"; Str "Round"; Str "Potato Chips"; Str "20240101"];
      mkRow 1 [Str "P2"; Str "Square"; Str "Microchip Tray"; Str "20230301"];
      mkRow 2 [Str "P3"; Str "Round"; Str "Cookie"; NaN] ].

Definition base_shapes : Frame Flagged :=
  match load Text.int_literal sheet_shapes with
  | Ok base => base
  | Raise _ => mkFrame [] []
  end.

Definition result_labels (r : result (Frame Flagged)) : option (list nat) :=
  match r with
  | Ok out => Some (labels_of (rows out))
  | Raise _ => None
  end.

(** ** Notions for the further properties *)

(** What a rename map of the aliasing holds: every entry renames a column
    of the sheet to a required label that the sheet does not have and
    whose pattern the lower-cased header matches; and no two entries
    give the same label. *)
Definition alias_sound (cols : list string) (rm : list (string * string)) : Prop :=
  (forall orig canon, In (orig, canon) rm ->
     In orig cols /\ has_column canon cols = false /\
     exists pattern, In (canon, pattern) HEADER_ALIASES /\
                     alias_match pattern (Text.lower orig) = true) /\
  NoDup (map snd rm).

(** Two alias patterns accept a common header: some spelling of the one
    equals some spelling of the other, up to letter case and the final
    newline that "$" allows. *)
Definition spellings_clash (p p' : string) : bool :=
  let nl := String (ascii_of_nat 10) EmptyString in
  existsb
    (fun sp =>
       existsb
         (fun sp' =>
            String.eqb (Text.lower sp) (Text.lower sp')
            || String.eqb (Text.lower sp) (Text.lower sp' ++ nl)%string
            || String.eqb (Text.lower sp ++ nl)%string (Text.lower sp')
            || String.eqb (Text.lower sp ++ nl)%string (Text.lower sp' ++ nl)%string)
         (alias_spellings p'))
    (alias_spellings p).

(** The loop of [_apply_header_aliases] over some of the rules, from a
    rename map already begun. *)
Definition alias_fold (cols : list string) (L : list (string * string))
  (rm : list (string * string)) : list (string * string) :=
  fold_left
    (fun rename_map '(canon, pattern) =>
       if has_column canon cols then rename_map
       else match find (fun '(low, _) => alias_match pattern low) (lowered cols) with
            | Some (_, orig) => dict_set orig canon rename_map
            | None => rename_map
            end)
    L rm.

(** A table with the canonical schema: the required columns, and rows of
    one cell per column. *)
Definition canonical (df : DataFrame) : Prop :=
  columns df = REQUIRED_COLUMNS /\
  Forall (fun r => List.length (cells r) = 15) (rows df).

(** A sheet that already has the canonical schema. *)
Definition canonical_sheet : DataFrame :=
  mkFrame REQUIRED_COLUMNS
    [ mkRow 0 [Str "P1"; Str "Active"; Str "Potato Chips"; NaN; NaN; NaN; NaN;
               Str "20240101"; NaN; Str "10oz"; Str "Round"; NaN; NaN; NaN; NaN] ].

(** The rows of a table with the canonical columns, each with the number
    read from its CodeDate cell (the eighth column). *)
Definition dated_rows (parse : string -> option Z) (df : DataFrame) : list Dated :=
  map (fun r => mkDated r (to_numeric parse (nth 7 (cells r) NaN))) (rows df).

(** What the two derived columns make of a table with the canonical
    columns: the rows sorted on PVNumber (the first column) and descending
    code date, the first row of each PVNumber flagged. *)
Definition upload_table (parse : string -> option Z) (df : DataFrame) : Frame Flagged :=
  mkFrame REQUIRED_COLUMNS
    (flag_first (dated_key 0) [] (sort_values 0 (dated_rows parse df))).

(** The query with its advanced filters replaced. *)
Definition with_adv_filters (Q : Query) (l : list (string * Cond)) : Query :=
  mkQuery (query Q) (basic_filters Q) l (min_str Q) (max_str Q) (keep_latest_only Q).

(** One step of the loop of the global search. *)
Definition global_step (base : Frame Flagged) (q : string) (acc : result Mask)
  (col : string) : result Mask :=
  mm <- acc ;;
  series <- getitem base col ;;
  hit <- str_contains q true ;;
  Ok (fun r => mm r || hit (Text.lower (astype_str (series r)))).


(** The order of the table built at upload, with the PVNumber column at
    position [i]: [a] may come before [b] when its PVNumber is smaller
    (a missing PVNumber counts as the greatest), or when the two are the
    same and the code date of [b] is not greater (a missing date counts
    as the least). *)
Definition upload_order (i : nat) (a b : Flagged) : Prop :=
  match key_compare (cell_at i a) (cell_at i b) with
  | Lt => True
  | Eq => num_le (CodeDate_num b) (CodeDate_num a)
  | Gt => False
  end.

(** * Properties *)

(** ** Basic facts *)

Lemma cell_eqb_spec (a b : cell) : reflect (a = b) (cell_eqb a b).
Proof.
  destruct a, b; simpl; try (constructor; congruence).
  destruct (String.eqb_spec s s0); constructor; congruence.
Qed.

Lemma cell_eqb_refl (a : cell) : cell_eqb a a = true.
Proof. destruct (cell_eqb_spec a a); congruence. Qed.

Lemma existsb_cell_In (k : cell) (l : list cell) :
  existsb (cell_eqb k) l = true <-> In k l.
Proof.
  rewrite existsb_exists. split.
  - intros [x [Hx He]]. destruct (cell_eqb_spec k x); congruence.
  - intros H. exists k. split; [assumption | apply cell_eqb_refl].
Qed.

Lemma subsequence_filter {A} (p : A -> bool) (l : list A) :
  subsequence (filter p l) l.
Proof.
  induction l as [|x l IH]; simpl; [constructor|].
  destruct (p x); constructor; assumption.
Qed.

Lemma subsequence_trans {A} (l1 l2 l3 : list A) :
  subsequence l1 l2 -> subsequence l2 l3 -> subsequence l1 l3.
Proof.
  intros H12 H23. revert l1 H12.
  induction H23; intros l0 H12.
  - assumption.
  - constructor. apply IHsubsequence. assumption.
  - inversion H12; subst.
    + apply subseq_skip. apply IHsubsequence. assumption.
    + apply subseq_keep. apply IHsubsequence. assumption.
Qed.

Lemma subsequence_In {A} (l1 l2 : list A) (x : A) :
  subsequence l1 l2 -> In x l1 -> In x l2.
Proof.
  induction 1; simpl; intuition.
Qed.

(** ** The stable sort *)

Section SortingFacts.
Context {A : Type} (leb : A -> A -> bool).

Let R (a b : A) : Prop := leb a b = true.

Lemma insert_perm (x : A) (l : list A) : Permutation (insert leb x l) (x :: l).
Proof.
  induction l as [|y l IH]; simpl; [reflexivity|].
  destruct (leb x y); [reflexivity|].
  rewrite IH. apply perm_swap.
Qed.

Lemma stable_sort_perm (l : list A) : Permutation (stable_sort leb l) l.
Proof.
  induction l as [|x l IH]; simpl; [reflexivity|].
  rewrite insert_perm. constructor. assumption.
Qed.

Lemma stable_sort_In (l : list A) (x : A) : In x (stable_sort leb l) <-> In x l.
Proof.
  split; apply Permutation_in;
    [apply stable_sort_perm | symmetry; apply stable_sort_perm].
Qed.

(** Inserting [x] puts it in front of the rows of its own class. *)
Lemma filter_insert (p : A -> bool) (x : A) (l : list A) :
  (forall y, In y l -> p x = true -> p y = true -> leb x y = true) ->
  filter p (insert leb x l) = if p x then x :: filter p l else filter p l.
Proof.
  induction l as [|y l IH]; intros Hp; simpl.
  - destruct (p x); reflexivity.
  - destruct (leb x y) eqn:Hxy; simpl.
    + destruct (p x); reflexivity.
    + rewrite IH by (intros; apply Hp; simpl; auto).
      destruct (p x) eqn:Hpx, (p y) eqn:Hpy; try reflexivity.
      rewrite Hp in Hxy; simpl; auto. discriminate.
Qed.

(** Stability: the rows of one class keep their input order. *)
Lemma stable_sort_stable (p : A -> bool) (l : list A) :
  (forall x y, In x l -> In y l -> p x = true -> p y = true -> leb x y = true) ->
  filter p (stable_sort leb l) = filter p l.
Proof.
  induction l as [|x l IH]; intros Hp; simpl; [reflexivity|].
  rewrite filter_insert.
  - rewrite IH by (intros; apply Hp; simpl; auto). reflexivity.
  - intros y Hy. apply Hp; simpl; auto.
    right. apply stable_sort_In. assumption.
Qed.

Lemma stable_sort_sorted_id (l : list A) :
  StronglySorted R l -> stable_sort leb l = l.
Proof.
  induction 1 as [|x l Hs IH Hx]; simpl; [reflexivity|].
  rewrite IH. destruct l as [|y l]; simpl; [reflexivity|].
  inversion Hx; subst. unfold R in *. rewrite H1. reflexivity.
Qed.

Hypothesis leb_total : forall a b, leb a b = true \/ leb b a = true.
Hypothesis leb_trans :
  forall a b c, leb a b = true -> leb b c = true -> leb a c = true.

Lemma insert_sorted (x : A) (l : list A) :
  StronglySorted R l -> StronglySorted R (insert leb x l).
Proof.
  induction 1 as [|y l Hs IH Hy]; simpl.
  - constructor; constructor.
  - destruct (leb x y) eqn:Hxy.
    + constructor; [constructor; assumption|].
      constructor; [exact Hxy|].
      eapply Forall_impl; [|exact Hy]. intros z Hz. eapply leb_trans; eauto.
    + constructor; [assumption|].
      assert (Hyx : leb y x = true) by (destruct (leb_total x y); congruence).
      eapply Permutation_Forall; [symmetry; apply insert_perm|].
      constructor; assumption.
Qed.

Lemma stable_sort_sorted (l : list A) : StronglySorted R (stable_sort leb l).
Proof.
  induction l as [|x l IH]; simpl; [constructor|].
  apply insert_sorted. assumption.
Qed.
End SortingFacts.

(** ** The sort order of the rows *)

Lemma ascii_compare_refl (a : ascii) : Ascii.compare a a = Eq.
Proof. unfold Ascii.compare. apply N.compare_refl. Qed.

Lemma ascii_compare_lt_trans (a b c : ascii) :
  Ascii.compare a b = Lt -> Ascii.compare b c = Lt -> Ascii.compare a c = Lt.
Proof.
  unfold Ascii.compare. rewrite !N.compare_lt_iff. apply N.lt_trans.
Qed.

Lemma string_compare_refl (s : string) : String.compare s s = Eq.
Proof.
  induction s as [|a s IH]; simpl; [reflexivity|].
  rewrite ascii_compare_refl. assumption.
Qed.

Lemma string_compare_lt_trans (a b c : string) :
  String.compare a b = Lt -> String.compare b c = Lt -> String.compare a c = Lt.
Proof.
  revert b c. induction a as [|x a IH]; intros [|y b] [|z c]; simpl;
    try discriminate; try reflexivity.
  destruct (Ascii.compare x y) eqn:Hxy; try discriminate;
    destruct (Ascii.compare y z) eqn:Hyz; try discriminate; intros Hab Hbc.
  - apply Ascii.compare_eq_iff in Hxy, Hyz. subst.
    rewrite ascii_compare_refl. eapply IH; eassumption.
  - apply Ascii.compare_eq_iff in Hxy. subst. rewrite Hyz. reflexivity.
  - apply Ascii.compare_eq_iff in Hyz. subst. rewrite Hxy. reflexivity.
  - rewrite (ascii_compare_lt_trans _ _ _ Hxy Hyz). reflexivity.
Qed.

Lemma key_compare_antisym (a b : cell) :
  key_compare a b = CompOpp (key_compare b a).
Proof.
  destruct a, b; simpl; try reflexivity. apply String.compare_antisym.
Qed.

Lemma key_compare_eq (a : cell) : key_compare a a = Eq.
Proof. destruct a; simpl; try reflexivity. apply string_compare_refl. Qed.

Lemma key_compare_eq_l (a b c : cell) :
  key_compare a b = Eq -> key_compare a c = key_compare b c.
Proof.
  destruct a, b; simpl; try discriminate; try reflexivity.
  intros H. apply String.compare_eq_iff in H. subst. reflexivity.
Qed.

Lemma key_compare_eq_r (a b c : cell) :
  key_compare b c = Eq -> key_compare a b = key_compare a c.
Proof.
  destruct b, c; simpl; try discriminate; try reflexivity.
  intros H. apply String.compare_eq_iff in H. subst. reflexivity.
Qed.

Lemma key_compare_lt_trans (a b c : cell) :
  key_compare a b = Lt -> key_compare b c = Lt -> key_compare a c = Lt.
Proof.
  destruct a, b, c; simpl; try discriminate; try reflexivity.
  apply string_compare_lt_trans.
Qed.

Lemma num_desc_leb_total (a b : num) :
  num_desc_leb a b = true \/ num_desc_leb b a = true.
Proof.
  unfold num_desc_leb. destruct (num_value a), (num_value b); auto.
  rewrite !Z.leb_le. lia.
Qed.

Lemma num_desc_leb_trans (a b c : num) :
  num_desc_leb a b = true -> num_desc_leb b c = true -> num_desc_leb a c = true.
Proof.
  unfold num_desc_leb.
  destruct (num_value a), (num_value b), (num_value c);
    try discriminate; try reflexivity.
  rewrite !Z.leb_le. lia.
Qed.

Lemma num_desc_leb_le (a b : num) : num_desc_leb a b = true <-> num_le b a.
Proof.
  unfold num_desc_leb, num_le.
  destruct (num_value a), (num_value b); try rewrite Z.leb_le; intuition congruence.
Qed.

Lemma sort_leb_total (i : nat) (a b : Dated) :
  sort_leb i a b = true \/ sort_leb i b a = true.
Proof.
  unfold sort_leb. rewrite (key_compare_antisym (cell_at i b)).
  destruct (key_compare (cell_at i a) (cell_at i b)); simpl; auto.
  apply num_desc_leb_total.
Qed.

Lemma sort_leb_trans (i : nat) (a b c : Dated) :
  sort_leb i a b = true -> sort_leb i b c = true -> sort_leb i a c = true.
Proof.
  unfold sort_leb.
  destruct (key_compare (cell_at i a) (cell_at i b)) eqn:Hab; try discriminate;
    destruct (key_compare (cell_at i b) (cell_at i c)) eqn:Hbc; try discriminate;
    intros H1 H2.
  - rewrite (key_compare_eq_l _ _ _ Hab), Hbc. eapply num_desc_leb_trans; eauto.
  - rewrite (key_compare_eq_l _ _ _ Hab), Hbc. reflexivity.
  - rewrite <- (key_compare_eq_r _ _ _ Hbc), Hab. reflexivity.
  - rewrite (key_compare_lt_trans _ _ _ Hab Hbc). reflexivity.
Qed.

(** Rows with the same key are ordered by their numeric value alone. *)
Lemma sort_leb_same_key (i : nat) (a b : Dated) :
  cell_at i a = cell_at i b ->
  sort_leb i a b = num_desc_leb (CodeDate_num a) (CodeDate_num b).
Proof.
  intros H. unfold sort_leb. rewrite H, key_compare_eq. reflexivity.
Qed.

(** ** Duplicates *)

Section DuplicatedFacts.
Context {A : Type} (key : A -> cell).

Lemma drop_duplicates_from_cons (seen : list cell) (x : A) (l : list A) :
  drop_duplicates_from key seen (x :: l) =
  if existsb (cell_eqb (key x)) seen
  then drop_duplicates_from key (key x :: seen) l
  else x :: drop_duplicates_from key (key x :: seen) l.
Proof.
  unfold drop_duplicates_from. simpl.
  destruct (existsb (cell_eqb (key x)) seen); reflexivity.
Qed.

Lemma drop_duplicates_subsequence (seen : list cell) (l : list A) :
  subsequence (drop_duplicates_from key seen l) l.
Proof.
  revert seen. induction l as [|x l IH]; intros seen.
  - constructor.
  - rewrite drop_duplicates_from_cons.
    destruct (existsb (cell_eqb (key x)) seen); constructor; apply IH.
Qed.

(** A kept row is the first of its key, and its key was not seen. *)
Lemma drop_duplicates_first (seen : list cell) (l : list A) (r : A) :
  In r (drop_duplicates_from key seen l) ->
  ~ In (key r) seen /\
  exists l1 l2, l = l1 ++ r :: l2 /\ forall x, In x l1 -> key x <> key r.
Proof.
  revert seen. induction l as [|x l IH]; intros seen.
  - simpl. contradiction.
  - rewrite drop_duplicates_from_cons.
    destruct (existsb (cell_eqb (key x)) seen) eqn:Hx.
    + intros Hr. destruct (IH _ Hr) as [Hns [l1 [l2 [El Hl1]]]].
      split; [intros Hin; apply Hns; right; assumption|].
      exists (x :: l1), l2. split; [rewrite El; reflexivity|].
      intros y [<-|Hy]; [|apply Hl1; assumption].
      intros E. apply Hns. left. assumption.
    + intros [<-|Hr].
      * split.
        -- intros Hin. apply existsb_cell_In in Hin. congruence.
        -- exists [], l. split; [reflexivity|]. simpl. contradiction.
      * destruct (IH _ Hr) as [Hns [l1 [l2 [El Hl1]]]].
        split; [intros Hin; apply Hns; right; assumption|].
        exists (x :: l1), l2. split; [rewrite El; reflexivity|].
        intros y [<-|Hy]; [|apply Hl1; assumption].
        intros E. apply Hns. left. assumption.
Qed.

(** For every key, the number of kept rows that bear it. *)
Lemma drop_duplicates_count (seen : list cell) (l : list A) (k : cell) :
  List.length (filter (fun r => cell_eqb (key r) k) (drop_duplicates_from key seen l)) =
  if existsb (cell_eqb k) seen then 0
  else if existsb (cell_eqb k) (map key l) then 1 else 0.
Proof.
  revert seen. induction l as [|x l IH]; intros seen.
  - simpl. destruct (existsb (cell_eqb k) seen); reflexivity.
  - rewrite drop_duplicates_from_cons. simpl map. simpl existsb.
    destruct (existsb (cell_eqb (key x)) seen) eqn:Hx.
    + rewrite IH. simpl.
      destruct (cell_eqb_spec k (key x)) as [->|Hk]; simpl.
      * rewrite Hx. reflexivity.
      * reflexivity.
    + cbn [filter].
      destruct (cell_eqb_spec (key x) k) as [<-|Hk].
      * cbn [List.length]. rewrite IH. simpl existsb.
        rewrite cell_eqb_refl, Hx. reflexivity.
      * rewrite IH. simpl existsb.
        destruct (cell_eqb_spec k (key x)) as [E|_]; [congruence|].
        reflexivity.
Qed.
End DuplicatedFacts.

Lemma flag_first_cons (key : Dated -> cell) (seen : list cell) (x : Dated) (l : list Dated) :
  flag_first key seen (x :: l) =
  mkFlagged x (negb (existsb (cell_eqb (key x)) seen))
  :: flag_first key (key x :: seen) l.
Proof. reflexivity. Qed.

Lemma flag_first_rows (key : Dated -> cell) (seen : list cell) (l : list Dated) :
  map f_dated (flag_first key seen l) = l.
Proof.
  revert seen. induction l as [|x l IH]; intros seen; [reflexivity|].
  rewrite flag_first_cons. simpl. rewrite IH. reflexivity.
Qed.

(** The flagged rows are the rows [drop_duplicates] keeps. *)
Lemma flag_first_flagged (key : Dated -> cell) (seen : list cell) (l : list Dated) :
  filter IsLatestPerPV (flag_first key seen l) =
  map (fun r => mkFlagged r true) (drop_duplicates_from key seen l).
Proof.
  revert seen. induction l as [|x l IH]; intros seen; [reflexivity|].
  rewrite flag_first_cons, drop_duplicates_from_cons. simpl.
  destruct (existsb (cell_eqb (key x)) seen); simpl; rewrite IH; reflexivity.
Qed.

Lemma flag_first_count (key : Dated -> cell) (seen : list cell) (l : list Dated) (k : cell) :
  List.length
    (filter (fun f : Flagged => IsLatestPerPV f && cell_eqb (key f) k)
            (flag_first key seen l)) =
  List.length (filter (fun r => cell_eqb (key r) k) (drop_duplicates_from key seen l)).
Proof.
  revert seen. induction l as [|x l IH]; intros seen; [reflexivity|].
  rewrite flag_first_cons, drop_duplicates_from_cons. cbn [filter IsLatestPerPV f_dated].
  destruct (existsb (cell_eqb (key x)) seen); cbn [negb andb filter].
  - apply IH.
  - destruct (cell_eqb (key x) k); cbn [List.length]; rewrite IH; reflexivity.
Qed.

(** ** The latest row of a key *)

Lemma StronglySorted_after {A} (R : A -> A -> Prop) (l1 l2 : list A) (r : A) :
  StronglySorted R (l1 ++ r :: l2) -> Forall (R r) l2.
Proof.
  induction l1 as [|x l1 IH]; simpl; intros H; inversion H; subst; auto.
Qed.

Lemma StronglySorted_filter {A} (R : A -> A -> Prop) (p : A -> bool) (l : list A) :
  StronglySorted R l -> StronglySorted R (filter p l).
Proof.
  induction 1 as [|x l Hs IH Hx]; simpl; [constructor|].
  destruct (p x); [|assumption].
  constructor; [assumption|].
  rewrite Forall_forall in *. intros y Hy. apply filter_In in Hy. apply Hx, Hy.
Qed.

Lemma RangeIndex_sorted (a : nat) (l : list Row) :
  map index l = seq a (List.length l) ->
  StronglySorted (fun x y => index x < index y) l.
Proof.
  revert a. induction l as [|x l IH]; intros a H; [constructor|].
  simpl in H. injection H as Hx Hl.
  constructor; [eapply IH; eassumption|].
  rewrite Forall_forall. intros y Hy.
  assert (Hin : In (index y) (seq (S a) (List.length l))).
  { rewrite <- Hl. apply in_map. assumption. }
  apply in_seq in Hin. lia.
Qed.

Lemma same_value_spec (a b : num) :
  same_value a b = true <-> num_value a = num_value b.
Proof.
  unfold same_value. destruct (num_value a), (num_value b);
    try rewrite Z.eqb_eq; split; congruence.
Qed.

Section Latest.
Context {A : Type} (proj : A -> Dated) (i : nat).

Let leb (a b : A) : bool := sort_leb i (proj a) (proj b).
Let key (a : A) : cell := dated_key i (proj a).
Let tie (r y : A) : bool :=
  cell_eqb (key y) (key r)
  && same_value (CodeDate_num (proj y)) (CodeDate_num (proj r)).

Lemma rows_sorted (l : list A) :
  StronglySorted (fun a b => leb a b = true) (stable_sort leb l).
Proof.
  apply stable_sort_sorted; intros; unfold leb in *.
  - apply sort_leb_total.
  - eapply sort_leb_trans; eassumption.
Qed.

(** The row kept for a key, after sorting, is a latest row of the key. *)
Lemma kept_is_latest (l : list A) (r x : A) :
  In r (drop_duplicates_from key [] (stable_sort leb l)) ->
  In x l -> key x = key r ->
  num_le (CodeDate_num (proj x)) (CodeDate_num (proj r)).
Proof.
  intros Hr Hx Hk.
  destruct (drop_duplicates_first key _ _ _ Hr) as [_ [l1 [l2 [El Hl1]]]].
  pose proof (rows_sorted l) as Hs.
  assert (Hx' : In x (stable_sort leb l)) by (apply stable_sort_In; assumption).
  rewrite El in Hs, Hx'.
  apply in_app_or in Hx'. destruct Hx' as [Hx'|[<-|Hx']].
  - exfalso. eapply Hl1; eassumption.
  - unfold num_le. destruct (num_value (CodeDate_num (proj r))); [lia | exact I].
  - apply StronglySorted_after in Hs. rewrite Forall_forall in Hs.
    specialize (Hs _ Hx'). unfold leb in Hs.
    rewrite sort_leb_same_key in Hs by (symmetry; exact Hk).
    apply num_desc_leb_le. assumption.
Qed.

(** Among the rows of its key with its numeric value, the kept row is
    the first of the input. *)
Lemma kept_is_first_of_ties (l : list A) (r : A) :
  In r (drop_duplicates_from key [] (stable_sort leb l)) ->
  exists rest, filter (tie r) l = r :: rest.
Proof.
  intros Hr.
  destruct (drop_duplicates_first key _ _ _ Hr) as [_ [l1 [l2 [El Hl1]]]].
  assert (Hst : filter (tie r) (stable_sort leb l) = filter (tie r) l).
  { apply stable_sort_stable. intros a b _ _ Ha Hb.
    unfold tie in Ha, Hb. apply andb_true_iff in Ha, Hb.
    destruct Ha as [Ka Va], Hb as [Kb Vb].
    destruct (cell_eqb_spec (key a) (key r)); [|discriminate].
    destruct (cell_eqb_spec (key b) (key r)); [|discriminate].
    unfold leb. rewrite sort_leb_same_key by (unfold key, dated_key in *; congruence).
    apply same_value_spec in Va, Vb.
    unfold num_desc_leb. rewrite Va, Vb.
    destruct (num_value (CodeDate_num (proj r))); [apply Z.leb_refl | reflexivity]. }
  rewrite El, filter_app in Hst. simpl in Hst.
  assert (Hp : tie r r = true).
  { unfold tie. rewrite cell_eqb_refl. simpl. apply same_value_spec. reflexivity. }
  rewrite Hp in Hst.
  assert (H1 : filter (tie r) l1 = []).
  { clear - Hl1. induction l1 as [|y l1 IH]; [reflexivity|]. simpl.
    assert (Hy : tie r y = false).
    { unfold tie. destruct (cell_eqb_spec (key y) (key r)) as [E|_]; [|reflexivity].
      exfalso. apply (Hl1 y); simpl; auto. }
    rewrite Hy. apply IH. intros z Hz. apply Hl1. right. assumption. }
  rewrite H1 in Hst. simpl in Hst. eexists. symmetry. exact Hst.
Qed.
End Latest.

(** C2. For every table with a PVNumber column and the index labels of a
    sheet as read, [_latest_per_pv_flag] returns the same rows, and for
    every PVNumber of the table exactly one row of that PVNumber has
    [IsLatestPerPV = true]; the flagged row has the maximum
    [CodeDate_num] of its PVNumber, a missing value being below every
    number, and among the rows of its PVNumber with that same value
    (all of them missing, when none has a date) it is the earliest of the
    input. *)
Theorem C2_flag_latest (df : Frame Dated) (i : nat) :
  positions "PVNumber" (columns df) = [i] ->
  RangeIndex (map d_row (rows df)) ->
  exists out,
    _latest_per_pv_flag df = Ok out /\
    Permutation (map f_dated (rows out)) (rows df) /\
    (forall r, In r (rows df) ->
       List.length
         (filter (fun f : Flagged =>
                    IsLatestPerPV f && cell_eqb (cell_at i f) (cell_at i r))
                 (rows out)) = 1) /\
    (forall (f : Flagged) (r : Dated),
       In f (rows out) -> IsLatestPerPV f = true ->
       In r (rows df) -> cell_at i r = cell_at i f ->
       num_le (CodeDate_num r) (CodeDate_num f) /\
       (num_value (CodeDate_num r) = num_value (CodeDate_num f) ->
        index f <= index r)).
Proof.
  intros Hpos Hidx. unfold _latest_per_pv_flag. rewrite Hpos.
  eexists. split; [reflexivity|]. simpl rows.
  assert (Hflag : forall f : Flagged,
             In f (flag_first (dated_key i) [] (sort_values i (rows df))) ->
             IsLatestPerPV f = true ->
             In (f_dated f)
                (drop_duplicates_from (dated_key i) [] (sort_values i (rows df)))).
  { intros f Hf Ht.
    assert (Hin : In f (filter IsLatestPerPV
                          (flag_first (dated_key i) [] (sort_values i (rows df))))).
    { apply filter_In. split; assumption. }
    rewrite flag_first_flagged in Hin. apply in_map_iff in Hin.
    destruct Hin as [d [<- Hd]]. exact Hd. }
  split; [|split].
  - rewrite flag_first_rows. apply stable_sort_perm.
  - intros r Hr.
    rewrite (flag_first_count (dated_key i) [] _ (cell_at i r)).
    rewrite drop_duplicates_count. simpl existsb.
    assert (Hex : existsb (cell_eqb (cell_at i r))
                    (map (dated_key i) (sort_values i (rows df))) = true).
    { apply existsb_cell_In.
      change (cell_at i r) with (dated_key i r).
      apply in_map. apply stable_sort_In. assumption. }
    rewrite Hex. reflexivity.
  - intros f r Hf Ht Hr Hk. specialize (Hflag f Hf Ht). split.
    + exact (kept_is_latest (fun d : Dated => d) i _ _ _ Hflag Hr Hk).
    + intros Hv.
      destruct (kept_is_first_of_ties (fun d : Dated => d) i _ _ Hflag) as [rest Hrest].
      assert (Hpr : In r (f_dated f :: rest)).
      { rewrite <- Hrest. apply filter_In. split; [assumption|].
        unfold dated_key. rewrite Hk, cell_eqb_refl. simpl.
        apply same_value_spec. assumption. }
      assert (Hs : StronglySorted (fun x y : Dated => index x < index y)
                     (f_dated f :: rest)).
      { rewrite <- Hrest. apply StronglySorted_filter.
        apply RangeIndex_sorted in Hidx. clear - Hidx.
        induction (rows df) as [|a l IH]; [constructor|].
        simpl in Hidx. inversion Hidx; subst.
        constructor; [auto|].
        rewrite Forall_forall in *. intros y Hy. apply H2. apply in_map. assumption. }
      inversion Hs; subst.
      destruct Hpr as [<-|Hpr]; [lia|].
      rewrite Forall_forall in H2. specialize (H2 _ Hpr). simpl in H2. lia.
Qed.

(** ** Column labels and positions *)

Lemma has_column_In (c : string) (cols : list string) :
  has_column c cols = true <-> In c cols.
Proof.
  unfold has_column. rewrite existsb_exists. split.
  - intros [x [Hx He]]. apply String.eqb_eq in He. subst. assumption.
  - intros H. exists c. split; [assumption | apply String.eqb_refl].
Qed.

Lemma positions_from_ge (k : nat) (c : string) (cols : list string) (j : nat) :
  In j (positions_from k c cols) -> k <= j < k + List.length cols.
Proof.
  revert k. induction cols as [|x cols IH]; intros k; simpl; [contradiction|].
  intros H. apply in_app_or in H. destruct H as [H|H].
  - destruct (String.eqb x c); simpl in H; [|contradiction].
    destruct H as [<-|[]]. lia.
  - apply IH in H. lia.
Qed.

Lemma positions_from_app (k : nat) (c : string) (a b : list string) :
  positions_from k c (a ++ b) =
  positions_from k c a ++ positions_from (k + List.length a) c b.
Proof.
  revert k. induction a as [|x a IH]; intros k; simpl.
  - rewrite Nat.add_0_r. reflexivity.
  - rewrite IH, <- app_assoc. do 3 f_equal. lia.
Qed.

Lemma positions_from_none (k : nat) (c : string) (cols : list string) :
  ~ In c cols -> positions_from k c cols = [].
Proof.
  revert k. induction cols as [|x cols IH]; intros k H; simpl; [reflexivity|].
  destruct (String.eqb_spec x c) as [E|_].
  - exfalso. apply H. left. assumption.
  - simpl. apply IH. intros Hin. apply H. right. assumption.
Qed.

Lemma positions_from_some (k : nat) (c : string) (cols : list string) :
  In c cols -> 1 <= List.length (positions_from k c cols).
Proof.
  revert k. induction cols as [|x cols IH]; intros k; simpl; [contradiction|].
  rewrite length_app. intros [->|H].
  - rewrite String.eqb_refl. simpl. lia.
  - specialize (IH (S k) H). lia.
Qed.

(** Every position of a label holds that label. *)
Lemma positions_from_nth (k : nat) (c : string) (cols : list string) :
  map (fun j => nth (j - k) cols EmptyString) (positions_from k c cols) =
  repeat c (List.length (positions_from k c cols)).
Proof.
  revert k. induction cols as [|x cols IH]; intros k; [reflexivity|].
  cbn [positions_from]. rewrite map_app, length_app, repeat_app. f_equal.
  - destruct (String.eqb_spec x c) as [->|_]; [|reflexivity].
    simpl. rewrite Nat.sub_diag. reflexivity.
  - rewrite <- IH. apply map_ext_in. intros j Hj.
    apply positions_from_ge in Hj.
    replace (j - k) with (S (j - S k)) by lia. reflexivity.
Qed.

Lemma take_columns_columns (labels : list string) (df : DataFrame) :
  columns (take_columns labels df) =
  flat_map (fun c => repeat c (List.length (positions c (columns df)))) labels.
Proof.
  unfold take_columns. cbn [columns].
  induction labels as [|c labels IH]; [reflexivity|].
  cbn [flat_map]. rewrite map_app, IH. f_equal.
  unfold positions. rewrite <- positions_from_nth.
  apply map_ext. intros j. rewrite Nat.sub_0_r. reflexivity.
Qed.

Lemma ensure_fold_columns (labels : list string) (df : DataFrame) :
  columns
    (fold_left
       (fun d col => if has_column col (columns d) then d else add_na_column col d)
       labels df) =
  columns df ++ missing labels (columns df).
Proof.
  revert df. induction labels as [|c labels IH]; intros df; simpl.
  - rewrite app_nil_r. reflexivity.
  - rewrite IH. destruct (has_column c (columns df)); [reflexivity|].
    simpl. rewrite <- app_assoc. reflexivity.
Qed.

Lemma missing_covers (labels cols : list string) (c : string) :
  In c labels -> In c (cols ++ missing labels cols).
Proof.
  revert cols. induction labels as [|a labels IH]; intros cols; [contradiction|].
  simpl. destruct (has_column a cols) eqn:Ha.
  - intros [->|H]; [|apply IH; assumption].
    apply in_or_app. left. apply has_column_In. assumption.
  - intros [->|H].
    + apply in_or_app. right. left. reflexivity.
    + specialize (IH (cols ++ [a]) H). rewrite <- app_assoc in IH. exact IH.
Qed.

Lemma missing_fresh (labels cols : list string) (c : string) :
  In c cols -> ~ In c (missing labels cols).
Proof.
  revert cols. induction labels as [|a labels IH]; intros cols Hc; simpl; [tauto|].
  destruct (has_column a cols) eqn:Ha; [apply IH; assumption|].
  intros [->|H].
  - apply has_column_In in Hc. congruence.
  - revert H. apply IH. apply in_or_app. left. assumption.
Qed.

Lemma missing_once (labels cols : list string) (c : string) (k : nat) :
  NoDup labels -> In c labels -> ~ In c cols ->
  List.length (positions_from k c (missing labels cols)) = 1.
Proof.
  intros Hnd. revert cols k.
  induction Hnd as [|a labels Ha Hnd IH]; intros cols k; [contradiction|].
  simpl. intros Hin Hc. destruct (has_column a cols) eqn:Hcol.
  - destruct Hin as [->|Hin]; [apply has_column_In in Hcol; contradiction|].
    apply IH; assumption.
  - cbn [positions_from]. rewrite length_app.
    destruct (String.eqb_spec a c) as [->|Hac].
    + rewrite positions_from_none; [reflexivity|].
      apply missing_fresh. apply in_or_app. right. left. reflexivity.
    + destruct Hin as [E|Hin]; [contradiction|].
      rewrite IH; [reflexivity|assumption|].
      intros H. apply in_app_or in H. destruct H as [H|[H|[]]]; auto.
Qed.

Lemma REQUIRED_COLUMNS_NoDup : NoDup REQUIRED_COLUMNS.
Proof.
  unfold REQUIRED_COLUMNS.
  repeat (constructor; [simpl; intros H; repeat (destruct H as [H|H]; [discriminate H|]); exact H|]).
  constructor.
Qed.

Lemma ensure_required_columns (df : DataFrame) :
  columns (_ensure_required df) =
  flat_map
    (fun c =>
       repeat c (List.length
                   (positions c (columns df ++ missing REQUIRED_COLUMNS (columns df)))))
    REQUIRED_COLUMNS.
Proof.
  unfold _ensure_required. rewrite take_columns_columns, ensure_fold_columns.
  reflexivity.
Qed.

(** Every required label is a column of the normalised table. *)
Lemma ensure_required_has (df : DataFrame) (c : string) :
  In c REQUIRED_COLUMNS -> In c (columns (_ensure_required df)).
Proof.
  intros Hc. rewrite ensure_required_columns. apply in_flat_map.
  exists c. split; [assumption|].
  pose proof (positions_from_some 0 c _ (missing_covers _ (columns df) c Hc)) as H.
  unfold positions.
  destruct (List.length (positions_from 0 c (columns df ++ missing REQUIRED_COLUMNS (columns df))));
    [lia | left; reflexivity].
Qed.

(** The schema, for a table in which no required label is borne by two
    columns. *)
Lemma ensure_required_schema (df : DataFrame) :
  (forall c, In c REQUIRED_COLUMNS -> List.length (positions c (columns df)) <= 1) ->
  columns (_ensure_required df) = REQUIRED_COLUMNS.
Proof.
  intros Hone. rewrite ensure_required_columns.
  assert (Hn : forall c, In c REQUIRED_COLUMNS ->
             List.length (positions c (columns df ++ missing REQUIRED_COLUMNS (columns df))) = 1).
  { intros c Hc. unfold positions. rewrite positions_from_app, length_app.
    destruct (has_column c (columns df)) eqn:Hcol.
    - apply has_column_In in Hcol.
      rewrite (positions_from_none _ c (missing _ _)) by (apply missing_fresh; assumption).
      pose proof (positions_from_some 0 c _ Hcol). specialize (Hone c Hc).
      unfold positions in Hone. simpl. lia.
    - assert (Hnc : ~ In c (columns df)).
      { intros H. apply has_column_In in H. congruence. }
      rewrite (positions_from_none _ c (columns df)) by assumption.
      rewrite missing_once; auto using REQUIRED_COLUMNS_NoDup. }
  revert Hn. generalize (columns df ++ missing REQUIRED_COLUMNS (columns df)).
  intros cols. generalize REQUIRED_COLUMNS. intros L.
  induction L as [|c L IH]; intros Hn; [reflexivity|].
  cbn [flat_map]. rewrite Hn by (left; reflexivity). simpl.
  f_equal. apply IH. intros x Hx. apply Hn. right. assumption.
Qed.

Lemma C2_flag_latest_witness :
  positions "PVNumber" (columns C2_table) = [0] /\
  RangeIndex (map d_row (rows C2_table)) /\
  exists out,
    _latest_per_pv_flag C2_table = Ok out /\
    Permutation (map f_dated (rows out)) (rows C2_table) /\
    (forall r, In r (rows C2_table) ->
       List.length
         (filter (fun f : Flagged =>
                    IsLatestPerPV f && cell_eqb (cell_at 0 f) (cell_at 0 r))
                 (rows out)) = 1).
Proof.
  split; [reflexivity|]. split; [reflexivity|].
  destruct (C2_flag_latest C2_table 0 eq_refl eq_refl) as [out [H1 [H2 [H3 _]]]].
  exists out. split; [exact H1|]. split; [exact H2 | exact H3].
Defined.

(** ** The schema *)

(** C3 (the code at the failing input).  A sheet whose headers "Shape"
    and "Shape " become the same label once stripped: the normalised
    table has sixteen columns, "Shape" twice, and the upload still
    succeeds. *)
Theorem C3_duplicate_header :
  columns (normalize C3_sheet) =
    [ "PVNumber"; "PVStatus"; "Description"; "DocumentType"; "NoteForMarketing";
      "CaseTypeDescriptor"; "AirFillDescriptor"; "CodeDate"; "SalesClass"; "Size";
      "Shape"; "Shape"; "CasesPerLayer(TI)"; "HI(Layers/Pallet)";
      "TotalNumberOfCasesPerPallet"; "BagsOrTraysPerLayer" ]
  /\ columns (normalize C3_sheet) <> REQUIRED_COLUMNS
  /\ exists base,
       load Text.int_literal C3_sheet = Ok base /\
       List.length (columns base) = 16.
Proof.
  split; [vm_compute; reflexivity|].
  split; [vm_compute; discriminate|].
  eexists. split; vm_compute; reflexivity.
Qed.

(** The schema holds for every sheet in which, after stripping and
    aliasing, no required label is borne by two columns. *)
Lemma normalize_schema (raw : DataFrame) :
  (forall c, In c REQUIRED_COLUMNS ->
     List.length
       (positions c (columns (_apply_header_aliases (_strip_columns raw)))) <= 1) ->
  columns (normalize raw) = REQUIRED_COLUMNS.
Proof. intros H. unfold normalize. apply ensure_required_schema. assumption. Qed.

(** ** The numeric code date *)

(** C8. For every table with one CodeDate column and every row,
    [CodeDate_num] is a number exactly when the CodeDate cell is a text
    that parses to that number, and is the missing value NaN exactly
    when the cell is blank or its text is no number (the empty text
    among them); it is never another value, zero included, and the
    derivation returns a table. *)
Theorem C8_code_date_numeric (parse : string -> option Z) (df : DataFrame) (i : nat) :
  parse EmptyString = None ->
  positions "CodeDate" (columns df) = [i] ->
  exists out,
    _parse_code_date_numeric parse df = Ok out /\
    map d_row (rows out) = rows df /\
    forall r : Dated, In r (rows out) ->
      (forall z, CodeDate_num r = Num z <->
                 exists s, cell_at i r = Str s /\ parse s = Some z) /\
      (CodeDate_num r = NumNaN <->
         isna (cell_at i r) = true \/
         exists s, cell_at i r = Str s /\ parse s = None) /\
      (cell_at i r = Str EmptyString -> CodeDate_num r = NumNaN).
Proof.
  intros Hempty Hpos. unfold _parse_code_date_numeric. rewrite Hpos.
  eexists. split; [reflexivity|]. cbn [rows]. split.
  - rewrite map_map. simpl. apply map_id.
  - intros r Hr. apply in_map_iff in Hr. destruct Hr as [x [<- _]].
    cbn [CodeDate_num d_row]. unfold cell_at, to_numeric.
    destruct (nth i (cells x) NaN) as [| |s] eqn:Hc; simpl.
    + split; [|split].
      * intros z. split; [discriminate|]. intros [s [H _]]. discriminate.
      * split; auto.
      * discriminate.
    + split; [|split].
      * intros z. split; [discriminate|]. intros [s [H _]]. discriminate.
      * split; auto.
      * discriminate.
    + split; [|split].
      * intros z. destruct (parse s) eqn:Hp; split.
        -- intros [= <-]. exists s. auto.
        -- intros [s' [[= <-] Hs']]. congruence.
        -- discriminate.
        -- intros [s' [[= <-] Hs']]. congruence.
      * destruct (parse s) eqn:Hp; split.
        -- discriminate.
        -- intros [H|[s' [[= <-] Hs']]]; [discriminate | congruence].
        -- intros _. right. exists s. auto.
        -- reflexivity.
      * intros [= ->]. rewrite Hempty. reflexivity.
Qed.

Lemma C8_code_date_numeric_witness :
  Text.int_literal EmptyString = None /\
  positions "CodeDate" (columns C8_sheet) = [1] /\
  exists out,
    _parse_code_date_numeric Text.int_literal C8_sheet = Ok out /\
    map d_row (rows out) = rows C8_sheet.
Proof.
  split; [reflexivity|]. split; [reflexivity|].
  destruct (C8_code_date_numeric Text.int_literal C8_sheet 1 eq_refl eq_refl)
    as [out [H1 [H2 _]]].
  exists out. split; [exact H1 | exact H2].
Defined.

(** ** The table built at upload *)

Lemma StronglySorted_map {A B} (R : B -> B -> Prop) (f : A -> B) (l : list A) :
  StronglySorted R (map f l) -> StronglySorted (fun a b => R (f a) (f b)) l.
Proof.
  induction l as [|x l IH]; simpl; intros H; [constructor|].
  inversion H; subst. constructor; [auto|].
  rewrite Forall_forall in *. intros y Hy. apply H3. apply in_map. assumption.
Qed.

Lemma positions_unique_or_raise (c : string) (cols : list string) :
  In c cols -> positions c cols <> [].
Proof.
  intros H E. pose proof (positions_from_some 0 c cols H) as Hl.
  unfold positions in E. rewrite E in Hl. simpl in Hl. lia.
Qed.

Lemma derive_base (parse : string -> option Z) (df : DataFrame) (base : Frame Flagged) :
  In "CodeDate" (columns df) -> In "PVNumber" (columns df) ->
  (d <- _parse_code_date_numeric parse df ;; _latest_per_pv_flag d) = Ok base ->
  exists i,
    positions "PVNumber" (columns base) = [i] /\
    StronglySorted (fun a b => flagged_leb i a b = true) (rows base) /\
    Forall (fun r : Flagged => CodeDate_num r <> NumNA) (rows base).
Proof.
  intros Hcd Hpv.
  apply positions_unique_or_raise in Hcd, Hpv.
  unfold _parse_code_date_numeric.
  destruct (positions "CodeDate" (columns df)) as [|j [|j' l]];
    [contradiction Hcd; reflexivity| |discriminate].
  unfold bind, _latest_per_pv_flag. unfold columns at 1. unfold rows at 1.
  destruct (positions "PVNumber" (columns df)) as [|i [|i' l]] eqn:Hi;
    [contradiction Hpv; reflexivity| |discriminate].
  intros H. injection H as <-. exists i. unfold columns at 1. unfold rows.
  split; [exact Hi|]. split.
  - apply (StronglySorted_map (fun a b => sort_leb i a b = true) f_dated).
    rewrite flag_first_rows.
    apply stable_sort_sorted; intros.
    + apply sort_leb_total.
    + eapply sort_leb_trans; eassumption.
  - rewrite Forall_forall. intros r Hr.
    assert (Hd : In (f_dated r) (sort_values i
               (map (fun r => mkDated r (to_numeric parse (nth j (cells r) NaN)))
                    (let (_, rs) := df in rs)))).
    { rewrite <- (flag_first_rows (dated_key i) []). apply in_map. exact Hr. }
    apply stable_sort_In in Hd. apply in_map_iff in Hd.
    destruct Hd as [x [Hx _]]. rewrite <- Hx. unfold CodeDate_num.
    unfold to_numeric. destruct (nth j (cells x) NaN); try discriminate.
    destruct (parse s); discriminate.
Qed.

Lemma load_unfold (parse : string -> option Z) (raw : DataFrame) :
  load parse raw =
  (df <- _parse_code_date_numeric parse (normalize raw) ;; _latest_per_pv_flag df).
Proof. reflexivity. Qed.

Lemma normalize_has (raw : DataFrame) (c : string) :
  has_column c REQUIRED_COLUMNS = true -> In c (columns (normalize raw)).
Proof.
  intros H. unfold normalize. apply ensure_required_has. apply has_column_In.
  exact H.
Qed.

(** The table built at upload has one PVNumber column, its rows are
    sorted by PVNumber and descending code date, and its numeric column
    holds numbers and NaN. *)
Lemma load_base (parse : string -> option Z) (raw : DataFrame) (base : Frame Flagged) :
  load parse raw = Ok base ->
  exists i,
    positions "PVNumber" (columns base) = [i] /\
    StronglySorted (fun a b => flagged_leb i a b = true) (rows base) /\
    Forall (fun r : Flagged => CodeDate_num r <> NumNA) (rows base).
Proof.
  rewrite load_unfold.
  apply derive_base; apply normalize_has; vm_compute; reflexivity.
Qed.

(** ** Folding the filters *)

Lemma fold_result_raise {A B} (step : result B -> A -> result B) (l : list A) (e : exn) :
  (forall e a, step (Raise e) a = Raise e) ->
  fold_left step l (Raise e) = Raise e.
Proof.
  intros H. induction l as [|a l IH]; simpl; [reflexivity|]. rewrite H. exact IH.
Qed.

Lemma fold_result_inv {A B} (P : B -> Prop) (step : result B -> A -> result B)
  (l : list A) (b out : B) :
  (forall e a, step (Raise e) a = Raise e) ->
  (forall b a b', P b -> step (Ok b) a = Ok b' -> P b') ->
  P b -> fold_left step l (Ok b) = Ok out -> P out.
Proof.
  intros Hr Hs. revert b. induction l as [|a l IH]; intros b Hb; simpl.
  - intros [= <-]. assumption.
  - destruct (step (Ok b) a) as [b'|e] eqn:E.
    + apply IH. eapply Hs; eassumption.
    + rewrite fold_result_raise by assumption. discriminate.
Qed.

Lemma bind_ok {A B} (m : result A) (k : A -> result B) (b : B) :
  bind m k = Ok b -> exists a, m = Ok a /\ k a = Ok b.
Proof.
  destruct m as [a|e]; simpl; [|discriminate]. intros H. exists a. auto.
Qed.

Lemma basic_fold_empty (base : Frame Flagged) (l : list (string * list string)) (m : Mask) :
  (forall f, In f l -> snd f = []) ->
  fold_left (basic_step base) l (Ok m) = Ok m.
Proof.
  induction l as [|f l IH]; intros H; simpl; [reflexivity|].
  rewrite (H f) by (left; reflexivity). apply IH.
  intros g Hg. apply H. right. assumption.
Qed.

Lemma filter_all {A} (l : list A) : filter (fun _ => true) l = l.
Proof. induction l as [|x l IH]; simpl; congruence. Qed.

(** ** The identity law *)

(** C9. For every table, the evaluation of an all-empty query (a search
    text that is blank once stripped, no value selected in any basic
    filter, no advanced filter, a bound of the date range left empty,
    keep-latest off) returns the table itself: the same columns and the
    same rows in the same order. *)
Theorem C9_empty_query (float : string -> option Z) (base : Frame Flagged) (Q : Query) :
  Text.strip (query Q) = EmptyString ->
  (forall f, In f (basic_filters Q) -> snd f = []) ->
  adv_filters Q = [] ->
  Text.nonempty (min_str Q) && Text.nonempty (max_str Q) = false ->
  keep_latest_only Q = false ->
  evaluate float base Q = Ok base.
Proof.
  intros Hq Hb Ha Hd Hk. unfold evaluate, query_mask, filters_mask.
  rewrite Hq. cbn [Text.lower Text.nonempty bind].
  rewrite basic_fold_empty by assumption. cbn [bind].
  rewrite Ha. cbn [fold_left bind]. unfold date_step. rewrite Hd, Hk.
  rewrite filter_all. destruct base; reflexivity.
Qed.

Lemma C9_empty_query_witness :
  evaluate Text.int_literal C6_base C9_query = Ok C6_base.
Proof.
  apply (C9_empty_query Text.int_literal C6_base C9_query).
  - reflexivity.
  - intros f [<-|[<-|[]]]; reflexivity.
  - reflexivity.
  - reflexivity.
  - reflexivity.
Defined.

(** ** The date range *)

Lemma in_range_spec (lo hi : Z) (n : num) :
  in_range lo hi n = true <-> exists v, n = Num v /\ (lo <= v <= hi)%Z.
Proof.
  destruct n as [| |v]; simpl.
  - split; [discriminate | intros [v [H _]]; discriminate].
  - split; [discriminate | intros [v [H _]]; discriminate].
  - rewrite andb_true_iff, !Z.leb_le. split.
    + intros H. exists v. auto.
    + intros [w [[= <-] H]]. exact H.
Qed.

Lemma no_NumNA (l : list Flagged) :
  Forall (fun r : Flagged => CodeDate_num r <> NumNA) l ->
  existsb (fun r : Flagged => match CodeDate_num r with NumNA => true | _ => false end) l
  = false.
Proof.
  induction 1 as [|r l Hr _ IH]; simpl; [reflexivity|].
  rewrite IH. destruct (CodeDate_num r); try reflexivity. congruence.
Qed.

(** C6. For every table whose numeric column holds numbers and NaN (as
    every table built at upload does) and every active date range (both
    bound texts non-empty): when both bounds parse, a row passes the
    range exactly when it passed the earlier filters and its
    [CodeDate_num] is a number between the bounds, so a row without a
    date fails; when a bound does not parse, the mask is left as it was,
    and the evaluation is the evaluation of the same query without its
    range, with no error of its own. *)
Theorem C6_date_range (float : string -> option Z) (base : Frame Flagged)
  (min_s max_s : string) (mask : Mask) :
  Text.nonempty min_s = true -> Text.nonempty max_s = true ->
  Forall (fun r : Flagged => CodeDate_num r <> NumNA) (rows base) ->
  (forall lo hi, float min_s = Some lo -> float max_s = Some hi ->
     forall r : Flagged,
       (date_step float base min_s max_s mask r = true <->
        mask r = true /\ exists v, CodeDate_num r = Num v /\ (lo <= v <= hi)%Z) /\
       (num_value (CodeDate_num r) = None ->
        date_step float base min_s max_s mask r = false)) /\
  (float min_s = None \/ float max_s = None ->
     date_step float base min_s max_s mask = mask /\
     forall Q, min_str Q = min_s -> max_str Q = max_s ->
       evaluate float base Q = evaluate float base (without_range Q)).
Proof.
  intros Hmin Hmax Hna. split.
  - intros lo hi Hlo Hhi r. unfold date_step.
    rewrite Hmin, Hmax, Hlo, Hhi, (no_NumNA _ Hna). cbn [andb]. split.
    + rewrite andb_true_iff, in_range_spec. reflexivity.
    + intros Hv. destruct (CodeDate_num r); try discriminate; simpl;
        apply andb_false_r.
  - intros Hfail.
    assert (Hstep : forall m, date_step float base min_s max_s m = m).
    { intros m. unfold date_step. rewrite Hmin, Hmax. cbn [andb].
      destruct Hfail as [-> | ->]; [reflexivity|].
      destruct (float min_s); reflexivity. }
    split; [apply Hstep|].
    intros Q Hqmin Hqmax. unfold evaluate, query_mask.
    change (filters_mask base (without_range Q)) with (filters_mask base Q).
    cbn [without_range min_str max_str keep_latest_only].
    rewrite Hqmin, Hqmax.
    destruct (filters_mask base Q) as [m|e]; [|reflexivity].
    cbn [bind]. rewrite Hstep. reflexivity.
Qed.

Lemma C6_date_range_witness :
  Text.nonempty "20230101" = true /\ Text.nonempty "20230601" = true /\
  Forall (fun r : Flagged => CodeDate_num r <> NumNA) (rows C6_base) /\
  forall r : Flagged,
    (date_step Text.int_literal C6_base "20230101" "20230601" (fun _ => true) r = true <->
     true = true /\
     exists v, CodeDate_num r = Num v /\ (20230101 <= v <= 20230601)%Z).
Proof.
  assert (H : Forall (fun r : Flagged => CodeDate_num r <> NumNA) (rows C6_base)).
  { repeat constructor; discriminate. }
  split; [reflexivity|]. split; [reflexivity|]. split; [exact H|].
  intros r.
  exact (proj1 (proj1 (C6_date_range Text.int_literal C6_base "20230101" "20230601"
                         (fun _ => true) eq_refl eq_refl H)
                  20230101%Z 20230601%Z eq_refl eq_refl r)).
Defined.

(** ** Matching and letter case *)

Lemma lower_ascii_facts (c : ascii) :
  Text.lower_ascii (Text.lower_ascii c) = Text.lower_ascii c /\
  is_special (Text.lower_ascii c) = is_special c /\
  Ascii.eqb (Text.lower_ascii c) "."%char = Ascii.eqb c "."%char /\
  Ascii.eqb (Text.lower_ascii c) (ascii_of_nat 10) = Ascii.eqb c (ascii_of_nat 10).
Proof.
  destruct c as [[] [] [] [] [] [] [] []]; repeat split; reflexivity.
Qed.

Lemma atom_matches_lower_text (a : atom) (x : ascii) :
  atom_matches true a (Text.lower_ascii x) = atom_matches true a x.
Proof.
  destruct a as [c|]; simpl.
  - rewrite (proj1 (lower_ascii_facts x)). reflexivity.
  - destruct (lower_ascii_facts x) as [_ [_ [_ H]]]. rewrite H. reflexivity.
Qed.

Lemma atom_matches_lower_atom (a : atom) (x : ascii) :
  atom_matches true (lower_atom a) x = atom_matches true a x.
Proof.
  destruct a as [c|]; simpl; [|reflexivity].
  rewrite (proj1 (lower_ascii_facts c)). reflexivity.
Qed.

Lemma match_here_lower_text (p : list atom) (s : string) :
  match_here true p (Text.lower s) = match_here true p s.
Proof.
  revert s. induction p as [|a p IH]; intros [|x s]; simpl; try reflexivity.
  rewrite atom_matches_lower_text, IH. reflexivity.
Qed.

Lemma re_search_lower_text (p : list atom) (s : string) :
  re_search true p (Text.lower s) = re_search true p s.
Proof.
  induction s as [|x s IH].
  - reflexivity.
  - change (Text.lower (String x s)) with (String (Text.lower_ascii x) (Text.lower s)).
    cbn [re_search]. rewrite IH.
    change (String (Text.lower_ascii x) (Text.lower s)) with (Text.lower (String x s)).
    rewrite match_here_lower_text. reflexivity.
Qed.

Lemma match_here_lower_atoms (p : list atom) (s : string) :
  match_here true (map lower_atom p) s = match_here true p s.
Proof.
  revert s. induction p as [|a p IH]; intros [|x s]; simpl; try reflexivity.
  rewrite atom_matches_lower_atom, IH. reflexivity.
Qed.

Lemma re_search_lower_atoms (p : list atom) (s : string) :
  re_search true (map lower_atom p) s = re_search true p s.
Proof.
  induction s as [|x s IH]; cbn [re_search]; rewrite match_here_lower_atoms;
    [reflexivity | rewrite IH; reflexivity].
Qed.

Lemma parse_pattern_lower (pat : string) :
  parse_pattern (Text.lower pat) = option_map (map lower_atom) (parse_pattern pat).
Proof.
  induction pat as [|c pat IH]; [reflexivity|].
  cbn [Text.lower parse_pattern]. rewrite IH.
  destruct (parse_pattern pat) as [p|]; [|reflexivity]. cbn [option_map].
  destruct (lower_ascii_facts c) as [_ [Hs [Hd _]]]. rewrite Hs, Hd.
  destruct (Ascii.eqb c "."%char); [reflexivity|].
  destruct (is_special c); reflexivity.
Qed.

(** [contains] reads neither the case of the text nor that of the
    operand. *)
Lemma str_contains_case (val : string) (hit : string -> bool) :
  str_contains val false = Ok hit ->
  (forall s s', Text.lower s = Text.lower s' -> hit s = hit s') /\
  (forall val' hit', Text.lower val' = Text.lower val ->
     str_contains val' false = Ok hit' -> forall s, hit' s = hit s).
Proof.
  unfold str_contains, re_compile.
  destruct (parse_pattern val) as [p|] eqn:Hp; [|discriminate].
  cbn [bind negb]. intros [= <-]. split.
  - intros s s' E. rewrite <- (re_search_lower_text p s), E.
    apply re_search_lower_text.
  - intros val' hit' E.
    destruct (parse_pattern val') as [p'|] eqn:Hp'; [|discriminate].
    cbn [bind]. intros [= <-] s.
    pose proof (parse_pattern_lower val) as H. pose proof (parse_pattern_lower val') as H'.
    rewrite Hp in H. rewrite Hp', E, H in H'. cbn [option_map] in H'.
    injection H' as H'.
    rewrite <- (re_search_lower_atoms p'), <- (re_search_lower_atoms p), H'.
    reflexivity.
Qed.

Lemma parse_pattern_literal (pat : string) :
  has_special pat = false -> parse_pattern pat = Some (literal_atoms pat).
Proof.
  induction pat as [|c pat IH]; [reflexivity|].
  cbn [has_special parse_pattern literal_atoms]. intros H.
  apply orb_false_iff in H. destruct H as [Hc Hp]. rewrite (IH Hp), Hc.
  destruct (Ascii.eqb_spec c "."%char) as [->|_]; [discriminate Hc | reflexivity].
Qed.

Lemma match_here_literal (pat s : string) :
  match_here true (literal_atoms pat) s =
  Text.is_prefix (Text.lower pat) (Text.lower s).
Proof.
  revert s. induction pat as [|c pat IH]; intros [|x s]; simpl; try reflexivity.
  rewrite IH. reflexivity.
Qed.

(** An operand without special characters is matched as a literal,
    case-insensitive substring. *)
Lemma str_contains_literal (val : string) :
  has_special val = false ->
  exists hit,
    str_contains val false = Ok hit /\
    forall s, hit s = Text.is_infix (Text.lower val) (Text.lower s).
Proof.
  intros H. unfold str_contains, re_compile. rewrite (parse_pattern_literal _ H).
  cbn [bind negb]. eexists. split; [reflexivity|].
  induction s as [|x s IH]; cbn [re_search Text.lower Text.is_infix];
    rewrite match_here_literal; [reflexivity|].
  rewrite IH. reflexivity.
Qed.

Lemma isin_In (values : list string) (s : string) :
  isin values s = true <-> In s values.
Proof.
  unfold isin. rewrite existsb_exists. split.
  - intros [x [Hx He]]. apply String.eqb_eq in He. subst. assumption.
  - intros H. exists s. split; [assumption | apply String.eqb_refl].
Qed.

Lemma nonempty_spec (s : string) : Text.nonempty s = true <-> s <> EmptyString.
Proof. destruct s; simpl; split; congruence. Qed.

Lemma in_list_items_spec (val x : string) :
  In x (in_list_items val) <->
  exists v, In v (Text.split ";"%char val) /\
            Text.strip v <> EmptyString /\ x = Text.strip v.
Proof.
  unfold in_list_items. rewrite in_map_iff. split.
  - intros [v [<- Hv]]. apply filter_In in Hv. destruct Hv as [Hin Hne].
    exists v. rewrite <- nonempty_spec. auto.
  - intros [v [Hin [Hne ->]]]. exists v. split; [reflexivity|].
    apply filter_In. rewrite nonempty_spec. auto.
Qed.

(** ** Exact and case-insensitive operators *)

(** C10. For every table, column and earlier mask: a basic filter with
    selected values accepts a row exactly when the row passed the
    earlier filters and its rendered value is equal, letter case
    included, to one of the selected values; the in-list operator
    likewise, against the stripped, non-empty pieces of its operand
    split at the semicolons; whereas the equals operator compares the
    lower-cased texts, and the contains operator gives the same answer
    for texts, and for operands, that differ only in letter case. *)
Theorem C10_case_sensitivity (base : Frame Flagged) (col : string)
  (series : Flagged -> cell) (mask : Mask) :
  getitem base col = Ok series ->
  (forall selected, selected <> [] ->
     exists m, basic_step base (Ok mask) (col, selected) = Ok m /\
       forall r, m r = true <->
                 mask r = true /\ In (astype_str (series r)) selected) /\
  (forall val,
     exists m, adv_step base (Ok mask) (col, mkCond "in list" val) = Ok m /\
       forall r, m r = true <->
                 mask r = true /\
                 exists v, In v (Text.split ";"%char val) /\
                           Text.strip v <> EmptyString /\
                           astype_str (series r) = Text.strip v) /\
  (forall val,
     exists m, adv_step base (Ok mask) (col, mkCond "equals" val) = Ok m /\
       forall r, m r = true <->
                 mask r = true /\
                 Text.lower (astype_str (series r)) = Text.lower val) /\
  (forall val hit, str_contains val false = Ok hit ->
     (exists m, adv_step base (Ok mask) (col, mkCond "contains" val) = Ok m /\
        forall r, m r = mask r && hit (astype_str (series r))) /\
     (forall s s', Text.lower s = Text.lower s' -> hit s = hit s') /\
     (forall val' hit', Text.lower val' = Text.lower val ->
        str_contains val' false = Ok hit' -> forall s, hit' s = hit s)).
Proof.
  intros Hcol. split; [|split; [|split]].
  - intros selected Hsel. unfold basic_step. cbn [bind fst snd].
    destruct selected as [|v vs]; [congruence|]. rewrite Hcol. cbn [bind].
    eexists. split; [reflexivity|]. intros r.
    rewrite andb_true_iff, isin_In. reflexivity.
  - intros val. unfold adv_step. cbn [bind fst snd mode value]. rewrite Hcol.
    cbn [bind]. eexists. split; [reflexivity|]. intros r. cbv beta.
    rewrite andb_true_iff, isin_In, in_list_items_spec. reflexivity.
  - intros val. unfold adv_step. cbn [bind fst snd mode value]. rewrite Hcol.
    cbn [bind]. eexists. split; [reflexivity|]. intros r. cbv beta.
    rewrite andb_true_iff, String.eqb_eq. reflexivity.
  - intros val hit Hhit. split; [|apply str_contains_case; assumption].
    unfold adv_step. cbn [bind fst snd mode value]. rewrite Hcol.
    cbn [bind]. change (String.eqb "contains" "contains") with true. cbv iota.
    rewrite Hhit. cbn [bind]. eexists. split; reflexivity.
Qed.

Lemma C10_case_sensitivity_witness :
  exists series,
    getitem C4_base "Shape" = Ok series /\
    exists m, basic_step C4_base (Ok (fun _ => true)) ("Shape", ["Round"]) = Ok m /\
      forall r, m r = true <-> true = true /\ In (astype_str (series r)) ["Round"].
Proof.
  eexists. split; [vm_compute; reflexivity|].
  refine (proj1 (C10_case_sensitivity C4_base "Shape" _ (fun _ => true) _) ["Round"] _).
  - vm_compute. reflexivity.
  - discriminate.
Defined.

(** ** The operand of a search is a regular expression *)

(** C4 (the code at the failing input).  The global term "a.c" keeps the
    row whose description is "abc", and so does the contains operator
    with the operand "a.c", although "a.c" is not a substring of "abc":
    the "." stands for any character.  The term "(" is not even a
    literal of the fragment modelled. *)
Theorem C4_dot_is_wildcard :
  Text.is_infix "a.c" "abc" = false /\
  (exists out,
     evaluate Text.int_literal C4_base (mkQuery "a.c" [] [] EmptyString EmptyString false)
       = Ok out /\
     map index (map d_row (map f_dated (rows out))) = [0; 1]) /\
  (exists out,
     evaluate Text.int_literal C4_base
       (mkQuery EmptyString [] [("Description", mkCond "contains" "A.C")]
                EmptyString EmptyString false) = Ok out /\
     map index (map d_row (map f_dated (rows out))) = [0; 1]) /\
  evaluate Text.int_literal C4_base (mkQuery "(" [] [] EmptyString EmptyString false)
    = Raise (PatternNotModelled "(").
Proof.
  split; [reflexivity|].
  split; [eexists; split; vm_compute; reflexivity|].
  split; [eexists; split; vm_compute; reflexivity|].
  vm_compute. reflexivity.
Qed.

(** ** The rendering of missing values *)

Lemma getitem_render (base : Frame Flagged) (col : string) (series : Flagged -> cell)
  (r r' : Flagged) :
  getitem base col = Ok series -> same_render r r' ->
  astype_str (series r) = astype_str (series r').
Proof.
  unfold getitem. destruct (positions col (columns base)) as [|i [|i' l]];
    try discriminate.
  intros [= <-] [Hc _]. unfold cell_at.
  rewrite <- !(map_nth astype_str). rewrite Hc. reflexivity.
Qed.

Lemma global_mask_render (base : Frame Flagged) (q : string) (m : Mask) :
  global_mask base q = Ok m ->
  forall r r', same_render r r' -> m r = m r'.
Proof.
  unfold global_mask.
  apply (fold_result_inv (fun m : Mask => forall r r', same_render r r' -> m r = m r')).
  - reflexivity.
  - intros mm col m' Hmm. cbn [bind].
    destruct (getitem base col) as [series|] eqn:Hs; [|discriminate]. cbn [bind].
    destruct (str_contains q true) as [hit|]; [|discriminate]. cbn [bind].
    intros [= <-] r r' Hr.
    rewrite (Hmm r r' Hr), (getitem_render _ _ _ _ _ Hs Hr). reflexivity.
  - reflexivity.
Qed.

Lemma basic_step_render (base : Frame Flagged) (m m' : Mask) f :
  (forall r r', same_render r r' -> m r = m r') ->
  basic_step base (Ok m) f = Ok m' ->
  forall r r', same_render r r' -> m' r = m' r'.
Proof.
  intros Hm. unfold basic_step. cbn [bind]. destruct (snd f) as [|v vs].
  - intros [= <-]. exact Hm.
  - destruct (getitem base (fst f)) as [series|] eqn:Hs; [|discriminate]. cbn [bind].
    intros [= <-] r r' Hr.
    rewrite (Hm r r' Hr), (getitem_render _ _ _ _ _ Hs Hr). reflexivity.
Qed.

Lemma adv_step_render (base : Frame Flagged) (m m' : Mask) f :
  (forall r r', same_render r r' -> m r = m r') ->
  adv_step base (Ok m) f = Ok m' ->
  forall r r', same_render r r' -> m' r = m' r'.
Proof.
  intros Hm. unfold adv_step. cbn [bind].
  destruct (getitem base (fst f)) as [series|] eqn:Hs; [|discriminate]. cbn [bind].
  destruct (String.eqb (mode (snd f)) "contains").
  { destruct (str_contains (value (snd f)) false) as [hit|]; [|discriminate].
    cbn [bind]. intros [= <-] r r' Hr.
    rewrite (Hm r r' Hr), (getitem_render _ _ _ _ _ Hs Hr). reflexivity. }
  destruct (String.eqb (mode (snd f)) "equals").
  { intros [= <-] r r' Hr.
    rewrite (Hm r r' Hr), (getitem_render _ _ _ _ _ Hs Hr). reflexivity. }
  destruct (String.eqb (mode (snd f)) "in list").
  { intros [= <-] r r' Hr.
    rewrite (Hm r r' Hr), (getitem_render _ _ _ _ _ Hs Hr). reflexivity. }
  intros [= <-]. exact Hm.
Qed.

(** Every operator sees a row through the text rendering of its cells. *)
Lemma query_mask_render (float : string -> option Z) (base : Frame Flagged) (Q : Query)
  (mask : Mask) :
  query_mask float base Q = Ok mask ->
  forall r r', same_render r r' -> mask r = mask r'.
Proof.
  unfold query_mask. intros H.
  apply bind_ok in H. destruct H as [m3 [H3 H]].
  unfold filters_mask in H3.
  apply bind_ok in H3. destruct H3 as [m1 [H1 H3]].
  apply bind_ok in H3. destruct H3 as [m2 [H2 H3]].
  assert (Hm1 : forall r r', same_render r r' -> m1 r = m1 r').
  { destruct (Text.nonempty (Text.lower (Text.strip (query Q)))).
    - apply bind_ok in H1. destruct H1 as [mm [Hg H1]].
      injection H1 as <-. intros r r' Hr. cbn [andb].
      eapply global_mask_render; eassumption.
    - injection H1 as <-. reflexivity. }
  assert (Hm2 : forall r r', same_render r r' -> m2 r = m2 r').
  { apply (fold_result_inv (fun m : Mask => forall r r', same_render r r' -> m r = m r')
             (basic_step base) (basic_filters Q) m1 m2);
      [reflexivity| |exact Hm1|exact H2].
    intros b a b' Hb Hstep. eapply basic_step_render; eassumption. }
  assert (Hm3 : forall r r', same_render r r' -> m3 r = m3 r').
  { apply (fold_result_inv (fun m : Mask => forall r r', same_render r r' -> m r = m r')
             (adv_step base) (adv_filters Q) m2 m3);
      [reflexivity| |exact Hm2|exact H3].
    intros b a b' Hb Hstep. eapply adv_step_render; eassumption. }
  injection H as <-. intros r r' Hr. unfold date_step.
  destruct (Text.nonempty (min_str Q) && Text.nonempty (max_str Q)); [|auto].
  destruct (float (min_str Q)); [|auto]. destruct (float (max_str Q)); [|auto].
  destruct (existsb _ (rows base)); [auto|].
  rewrite (Hm3 r r' Hr). destruct Hr as [_ ->]. reflexivity.
Qed.

(** *** The cells of the normalised table *)

Lemma positions_from_label (k : nat) (c : string) (cols : list string) (j : nat) :
  In j (positions_from k c cols) -> nth (j - k) cols EmptyString = c.
Proof.
  revert k. induction cols as [|x cols IH]; intros k; simpl; [contradiction|].
  intros H. apply in_app_or in H. destruct H as [H|H].
  - destruct (String.eqb_spec x c) as [->|_]; simpl in H; [|contradiction].
    destruct H as [<-|[]]. rewrite Nat.sub_diag. reflexivity.
  - pose proof (positions_from_ge _ _ _ _ H) as Hge.
    replace (j - k) with (S (j - S k)) by lia. apply IH. assumption.
Qed.

Lemma nth_repeat_lt {A} (a d : A) (n i : nat) :
  i < n -> nth i (repeat a n) d = a.
Proof.
  revert i. induction n as [|n IH]; intros i H; [lia|].
  destruct i; simpl; [reflexivity|]. apply IH. lia.
Qed.

Lemma ensure_fold_rows (labels : list string) (df : DataFrame) :
  rows
    (fold_left
       (fun d col => if has_column col (columns d) then d else add_na_column col d)
       labels df) =
  map (fun r => mkRow (index r)
                  (cells r ++ repeat NA (List.length (missing labels (columns df)))))
      (rows df).
Proof.
  revert df. induction labels as [|c labels IH]; intros df; simpl.
  - rewrite <- (map_id (rows df)) at 1. apply map_ext.
    intros [i cs]. simpl. rewrite app_nil_r. reflexivity.
  - rewrite IH. destruct (has_column c (columns df)); [reflexivity|].
    simpl. rewrite map_map. apply map_ext. intros r. simpl.
    rewrite <- app_assoc. reflexivity.
Qed.

(** Under a label that the sheet does not have, every cell of the
    normalised table is [pd.NA]; under a label that it has, the cell is a
    cell of the sheet under that label. *)
Lemma ensure_required_cells (df : DataFrame) (r' : Row) :
  well_formed df -> In r' (rows (_ensure_required df)) ->
  exists r, In r (rows df) /\ index r' = index r /\
    forall j, j < List.length (columns (_ensure_required df)) ->
      let c := nth j (columns (_ensure_required df)) EmptyString in
      In c REQUIRED_COLUMNS /\
      (has_column c (columns df) = false -> cell_at j r' = NA) /\
      (has_column c (columns df) = true ->
         exists p, nth_error (columns df) p = Some c /\ cell_at j r' = cell_at p r).
Proof.
  intros Hwf. unfold _ensure_required, take_columns.
  rewrite ensure_fold_columns, ensure_fold_rows. cbn [rows columns].
  set (cols := columns df). set (miss := missing REQUIRED_COLUMNS cols).
  set (idxs := flat_map (fun c => positions c (cols ++ miss)) REQUIRED_COLUMNS).
  rewrite map_map. cbn [index cells]. intros Hr'.
  apply in_map_iff in Hr'. destruct Hr' as [r [<- Hr]].
  exists r. split; [assumption|]. split; [reflexivity|].
  rewrite length_map. intros j Hj. cbv zeta.
  assert (Hlen : List.length (cells r) = List.length cols).
  { unfold well_formed in Hwf. rewrite Forall_forall in Hwf. apply Hwf. assumption. }
  set (p := nth j idxs 0).
  assert (Hp : In p idxs) by (apply nth_In; assumption).
  unfold idxs in Hp. apply in_flat_map in Hp. destruct Hp as [c [HcL Hp]].
  unfold positions in Hp.
  pose proof (positions_from_ge _ _ _ _ Hp) as Hrange.
  pose proof (positions_from_label _ _ _ _ Hp) as Hlab.
  rewrite Nat.sub_0_r in Hlab. rewrite length_app in Hrange.
  assert (Hcol : nth j (map (fun i => nth i (cols ++ miss) EmptyString) idxs) EmptyString = c).
  { rewrite (nth_indep _ EmptyString (nth 0 (cols ++ miss) EmptyString))
      by (rewrite length_map; assumption).
    rewrite (map_nth (fun i => nth i (cols ++ miss) EmptyString)). exact Hlab. }
  assert (Hcell : cell_at j
            (mkRow (index r)
               (map (fun i => nth i (cells r ++ repeat NA (List.length miss)) NaN) idxs))
          = nth p (cells r ++ repeat NA (List.length miss)) NaN).
  { unfold cell_at. cbn [cells].
    rewrite (nth_indep _ NaN (nth 0 (cells r ++ repeat NA (List.length miss)) NaN))
      by (rewrite length_map; assumption).
    rewrite (map_nth (fun i => nth i (cells r ++ repeat NA (List.length miss)) NaN)).
    reflexivity. }
  rewrite Hcol, Hcell. split; [assumption|].
  destruct (Nat.lt_ge_cases p (List.length cols)) as [Hlt|Hge].
  - assert (Hin : In c cols).
    { rewrite <- Hlab, app_nth1 by assumption. apply nth_In. assumption. }
    split.
    + intros Hf. apply has_column_In in Hin. congruence.
    + intros _. exists p. split.
      * rewrite <- Hlab, app_nth1 by assumption. apply nth_error_nth'. assumption.
      * rewrite app_nth1 by lia. reflexivity.
  - assert (Hin : In c miss).
    { rewrite <- Hlab, app_nth2 by assumption. apply nth_In. lia. }
    split.
    + intros _. rewrite app_nth2 by lia. apply nth_repeat_lt. lia.
    + intros Ht. apply has_column_In in Ht. exfalso.
      exact (missing_fresh REQUIRED_COLUMNS cols c Ht Hin).
Qed.

(** C5 (the claim fails).  In the table built from a sheet that has a
    Shape column with a blank cell and no Size column, the blank Shape
    cell is rendered "nan", not "<NA>", whereas the synthesised Size
    cell of the same row is rendered "<NA>": the basic filter Shape in
    {"<NA>"} keeps no row and Shape in {"nan"} keeps that row. *)
Lemma C5_counterexample :
  exists (shape size : Flagged -> cell) (r : Flagged),
    getitem C4_base "Shape" = Ok shape /\
    getitem C4_base "Size" = Ok size /\
    nth_error (rows C4_base) 2 = Some r /\
    isna (shape r) = true /\
    astype_str (shape r) = "nan" /\
    astype_str (shape r) <> "<NA>" /\
    isna (size r) = true /\
    astype_str (size r) = "<NA>" /\
    (exists out,
       evaluate Text.int_literal C4_base
         (mkQuery EmptyString [("Shape", ["<NA>"])] [] EmptyString EmptyString false)
         = Ok out /\ rows out = []) /\
    (exists out,
       evaluate Text.int_literal C4_base
         (mkQuery EmptyString [("Shape", ["nan"])] [] EmptyString EmptyString false)
         = Ok out /\ labels_of (rows out) = [2]).
Proof.
  eexists. eexists. eexists.
  split; [vm_compute; reflexivity|].
  split; [vm_compute; reflexivity|].
  split; [vm_compute; reflexivity|].
  split; [vm_compute; reflexivity|].
  split; [vm_compute; reflexivity|].
  split; [vm_compute; discriminate|].
  split; [vm_compute; reflexivity|].
  split; [vm_compute; reflexivity|].
  split; eexists; split; vm_compute; reflexivity.
Qed.

(** C5 (amended). A missing value is rendered by a fixed placeholder that
    depends on its kind only: "<NA>" for [pd.NA] and "nan" for the blank
    cell NaN; every operator sees a row through this rendering alone
    (two rows with the same rendered cells and the same numeric code
    date get the same mask); and in a normalised table every cell under
    a field that the sheet does not have is [pd.NA], hence rendered
    "<NA>", while a cell under a field that the sheet has is the sheet's
    own cell, a blank one being rendered "nan". *)
Theorem C5_missing_rendering :
  astype_str NA = "<NA>" /\
  astype_str NaN = "nan" /\
  (forall float base Q mask,
     query_mask float base Q = Ok mask ->
     forall r r', same_render r r' -> mask r = mask r') /\
  (forall df r', well_formed df -> In r' (rows (_ensure_required df)) ->
     exists r, In r (rows df) /\
       forall j, j < List.length (columns (_ensure_required df)) ->
         let c := nth j (columns (_ensure_required df)) EmptyString in
         (has_column c (columns df) = false ->
            astype_str (cell_at j r') = "<NA>") /\
         (has_column c (columns df) = true ->
            exists p, nth_error (columns df) p = Some c /\
                      cell_at j r' = cell_at p r /\
                      (cell_at p r = NaN -> astype_str (cell_at j r') = "nan"))).
Proof.
  split; [reflexivity|]. split; [reflexivity|]. split.
  - intros float base Q mask. apply query_mask_render.
  - intros df r' Hwf Hr'.
    destruct (ensure_required_cells df r' Hwf Hr') as [r [Hr [_ H]]].
    exists r. split; [assumption|]. intros j Hj.
    destruct (H j Hj) as [_ [Hsyn Hup]]. cbv zeta. split.
    + intros Hc. rewrite (Hsyn Hc). reflexivity.
    + intros Hc. destruct (Hup Hc) as [p [Hp Hcell]].
      exists p. split; [assumption|]. split; [assumption|].
      intros Hnan. rewrite Hcell, Hnan. reflexivity.
Qed.

Lemma C5_missing_rendering_witness :
  exists mask,
    query_mask Text.int_literal C4_base
      (mkQuery EmptyString [("Shape", ["nan"])] [] EmptyString EmptyString false)
      = Ok mask /\
    forall r r', same_render r r' -> mask r = mask r'.
Proof.
  eexists. split; [vm_compute; reflexivity|].
  refine (proj1 (proj2 (proj2 C5_missing_rendering)) Text.int_literal C4_base
            (mkQuery EmptyString [("Shape", ["nan"])] [] EmptyString EmptyString false)
            _ _).
  vm_compute. reflexivity.
Defined.

(** ** Keeping the latest row of each PVNumber *)

Lemma StronglySorted_subsequence {A} (R : A -> A -> Prop) (l1 l2 : list A) :
  subsequence l1 l2 -> StronglySorted R l2 -> StronglySorted R l1.
Proof.
  induction 1 as [|x l1 l2 Hs IH|x l1 l2 Hs IH]; intros H.
  - constructor.
  - inversion H; subst. auto.
  - inversion H; subst. constructor; [auto|].
    rewrite Forall_forall in *. intros y Hy. apply H3.
    eapply subsequence_In; eassumption.
Qed.

Lemma flagged_rows_sorted (i : nat) (l : list Flagged) :
  StronglySorted (fun a b => flagged_leb i a b = true) (stable_sort (flagged_leb i) l).
Proof.
  apply stable_sort_sorted; unfold flagged_leb; intros.
  - apply sort_leb_total.
  - eapply sort_leb_trans; eassumption.
Qed.

(** The rows that [evaluate] returns, once the mask is known. *)
Lemma evaluate_rows (float : string -> option Z) (base : Frame Flagged) (Q : Query)
  (mask : Mask) (i : nat) :
  positions "PVNumber" (columns base) = [i] ->
  query_mask float base Q = Ok mask ->
  evaluate float base Q =
  Ok (mkFrame (columns base)
        (if keep_latest_only Q
         then drop_duplicates (flagged_key i)
                (stable_sort (flagged_leb i) (filter mask (rows base)))
         else filter mask (rows base))).
Proof.
  intros Hpos Hmask. unfold evaluate. rewrite Hmask. cbn [bind]. rewrite Hpos.
  destruct (keep_latest_only Q); reflexivity.
Qed.

Lemma is_ok_inv {A} (m : result A) : is_ok m = true -> exists a, m = Ok a.
Proof. destruct m as [a|e]; [eauto | discriminate]. Qed.

Lemma filter_andb {A} (p q : A -> bool) (l : list A) :
  filter (fun x => p x && q x) l = filter q (filter p l).
Proof.
  induction l as [|x l IH]; simpl; [reflexivity|].
  destruct (p x); simpl; [destruct (q x)|]; rewrite IH; reflexivity.
Qed.

(** The rows that satisfy the mask and bear the flag are the flagged rows
    of the result without keep-latest. *)
Lemma keep_flagged_survivors (float : string -> option Z) (base : Frame Flagged)
  (Q : Query) (mask : Mask) :
  query_mask float base Q = Ok mask ->
  exists survivors,
    evaluate float base (without_keep Q) = Ok survivors /\
    rows survivors = filter mask (rows base) /\
    keep_flagged mask base = filter IsLatestPerPV (rows survivors).
Proof.
  intros Hmask. unfold evaluate.
  change (query_mask float base (without_keep Q)) with (query_mask float base Q).
  rewrite Hmask. cbn [bind without_keep keep_latest_only].
  eexists. split; [reflexivity|]. cbn [rows]. split; [reflexivity|].
  apply filter_andb.
Qed.

(** C1 (the claim fails).  In the table built from two records of P1,
    the record of 20240101 bears the flag; the query "old" with
    keep-latest returns the record of 20230101, the only one that
    satisfies the mask, whereas no record both satisfies the mask and
    bears the flag. *)
Lemma C1_counterexample :
  map (fun r : Flagged => (index r, CodeDate_num r, IsLatestPerPV r)) (rows C1_base)
    = [ (0, Num 20240101, true); (1, Num 20230101, false) ] /\
  keep_latest_only C1_query = true /\
  exists out,
    evaluate Text.int_literal C1_base C1_query = Ok out /\
    labels_of (rows out) = [1] /\
    forall mask, query_mask Text.int_literal C1_base C1_query = Ok mask ->
      keep_flagged mask C1_base = [] /\ rows out <> keep_flagged mask C1_base.
Proof.
  split; [vm_compute; reflexivity|]. split; [reflexivity|].
  eexists. split; [vm_compute; reflexivity|]. split; [vm_compute; reflexivity|].
  intros mask Hmask.
  destruct (keep_flagged_survivors _ _ _ _ Hmask) as [survivors [Hs [_ Hk]]].
  assert (Hflag : filter IsLatestPerPV (rows survivors) = []).
  { assert (E : match evaluate Text.int_literal C1_base (without_keep C1_query) with
                | Ok s => filter IsLatestPerPV (rows s)
                | Raise _ => []
                end = []) by (vm_compute; reflexivity).
    rewrite Hs in E. exact E. }
  rewrite Hk, Hflag. split; [reflexivity | discriminate].
Qed.

(** C1 (amended). For every table with a PVNumber column and every query
    with keep-latest set whose mask evaluates, [evaluate] returns rows of
    the table that satisfy the mask, exactly one for each PVNumber that
    has a row satisfying the mask; the row returned has the maximum
    [CodeDate_num] among the rows of its PVNumber that satisfy the mask
    (a missing value being below every number) and is the first of them
    in the table with that value: the latest row is chosen within the
    filtered subset, and the flag [IsLatestPerPV] is not read. *)
Theorem C1_keep_latest (float : string -> option Z) (base : Frame Flagged) (Q : Query)
  (mask : Mask) (i : nat) :
  keep_latest_only Q = true ->
  positions "PVNumber" (columns base) = [i] ->
  query_mask float base Q = Ok mask ->
  exists out,
    evaluate float base Q = Ok out /\
    columns out = columns base /\
    (forall f, In f (rows out) -> In f (rows base) /\ mask f = true) /\
    (forall r, In r (rows base) -> mask r = true ->
       List.length
         (filter (fun f => cell_eqb (flagged_key i f) (flagged_key i r)) (rows out))
       = 1) /\
    (forall f r, In f (rows out) -> In r (rows base) -> mask r = true ->
       flagged_key i r = flagged_key i f ->
       num_le (CodeDate_num r) (CodeDate_num f)) /\
    (forall f, In f (rows out) ->
       exists rest,
         filter (fun y : Flagged =>
                   cell_eqb (flagged_key i y) (flagged_key i f)
                   && same_value (CodeDate_num y) (CodeDate_num f))
                (filter mask (rows base))
         = f :: rest).
Proof.
  intros Hkeep Hpos Hmask.
  rewrite (evaluate_rows float base Q mask i Hpos Hmask), Hkeep.
  eexists. split; [reflexivity|]. cbn [columns rows]. split; [reflexivity|].
  unfold drop_duplicates.
  set (filtered := filter mask (rows base)).
  split; [|split; [|split]].
  - intros f Hf.
    apply (subsequence_In _ _ _ (drop_duplicates_subsequence _ _ _)) in Hf.
    apply stable_sort_In in Hf. apply filter_In in Hf. exact Hf.
  - intros r Hr Hm. rewrite drop_duplicates_count. cbn [existsb].
    assert (Hex : existsb (cell_eqb (flagged_key i r))
                    (map (flagged_key i) (stable_sort (flagged_leb i) filtered)) = true).
    { apply existsb_cell_In. apply in_map. apply stable_sort_In.
      apply filter_In. auto. }
    rewrite Hex. reflexivity.
  - intros f r Hf Hr Hm Hk.
    assert (Hin : In r filtered) by (apply filter_In; auto).
    exact (kept_is_latest f_dated i filtered f r Hf Hin Hk).
  - intros f Hf.
    exact (kept_is_first_of_ties f_dated i filtered f Hf).
Qed.

Lemma C1_keep_latest_witness :
  keep_latest_only C1_query = true /\
  positions "PVNumber" (columns C1_base) = [0] /\
  exists mask out,
    query_mask Text.int_literal C1_base C1_query = Ok mask /\
    evaluate Text.int_literal C1_base C1_query = Ok out /\
    columns out = columns C1_base /\
    (forall f, In f (rows out) -> In f (rows C1_base) /\ mask f = true).
Proof.
  assert (Hpos : positions "PVNumber" (columns C1_base) = [0])
    by (vm_compute; reflexivity).
  destruct (is_ok_inv (query_mask Text.int_literal C1_base C1_query))
    as [mask Hmask]; [vm_compute; reflexivity|].
  destruct (C1_keep_latest Text.int_literal C1_base C1_query mask 0 eq_refl Hpos Hmask)
    as [out [H1 [H2 [H3 _]]]].
  split; [reflexivity|]. split; [exact Hpos|].
  exists mask, out. split; [exact Hmask|]. split; [exact H1|]. split; [exact H2|].
  exact H3.
Defined.

(** ** The order of the result *)

(** C7 (the claim fails).  A table with P2 before P1: with keep-latest
    the result has P1 before P2, which is not the input order.  And the
    table built from the sheet with P2 before P1 is already re-ordered,
    so that the result of the empty query, without keep-latest, is not
    in the order of the sheet either. *)
Lemma C7_counterexample :
  labels_of (rows C7_table) = [0; 1] /\
  (exists out,
     evaluate Text.int_literal C7_table (C7_query true) = Ok out /\
     labels_of (rows out) = [1; 0] /\
     is_subsequence (labels_of (rows out)) (labels_of (rows C7_table)) = false) /\
  map index (rows C7_sheet) = [0; 1] /\
  (exists base out,
     load Text.int_literal C7_sheet = Ok base /\
     evaluate Text.int_literal base (C7_query false) = Ok out /\
     labels_of (rows out) = [1; 0] /\
     is_subsequence (labels_of (rows out)) (map index (rows C7_sheet)) = false).
Proof.
  split; [reflexivity|]. split.
  - eexists. split; [vm_compute; reflexivity|]. split; vm_compute; reflexivity.
  - split; [reflexivity|]. eexists. eexists.
    split; [vm_compute; reflexivity|].
    split; [vm_compute; reflexivity|]. split; vm_compute; reflexivity.
Qed.

(** C7 (amended). For every table with a PVNumber column and every query
    whose mask evaluates: without keep-latest the result is the rows that
    satisfy the mask, in the order of the table; with keep-latest it is
    those rows stably sorted by PVNumber ascending and [CodeDate_num]
    descending (missing last), reduced to the first row of each
    PVNumber, hence sorted in that order; and the result is in the
    relative order of the table whenever the table is already sorted in
    that order, as every table built at upload is. *)
Theorem C7_order (float : string -> option Z) (base : Frame Flagged) (Q : Query)
  (mask : Mask) (i : nat) :
  positions "PVNumber" (columns base) = [i] ->
  query_mask float base Q = Ok mask ->
  exists out,
    evaluate float base Q = Ok out /\
    (keep_latest_only Q = false -> rows out = filter mask (rows base)) /\
    (keep_latest_only Q = true ->
       rows out = drop_duplicates (flagged_key i)
                    (stable_sort (flagged_leb i) (filter mask (rows base))) /\
       StronglySorted (fun a b => flagged_leb i a b = true) (rows out)) /\
    (StronglySorted (fun a b => flagged_leb i a b = true) (rows base) ->
       subsequence (rows out) (rows base)) /\
    (forall parse raw, load parse raw = Ok base ->
       subsequence (rows out) (rows base)).
Proof.
  intros Hpos Hmask. rewrite (evaluate_rows float base Q mask i Hpos Hmask).
  eexists. split; [reflexivity|]. cbn [rows].
  assert (Hsub : StronglySorted (fun a b => flagged_leb i a b = true) (rows base) ->
                 subsequence
                   (if keep_latest_only Q
                    then drop_duplicates (flagged_key i)
                           (stable_sort (flagged_leb i) (filter mask (rows base)))
                    else filter mask (rows base))
                   (rows base)).
  { intros Hsorted. destruct (keep_latest_only Q); [|apply subsequence_filter].
    rewrite stable_sort_sorted_id by (apply StronglySorted_filter; assumption).
    eapply subsequence_trans; [apply drop_duplicates_subsequence|].
    apply subsequence_filter. }
  split; [|split; [|split]].
  - intros ->. reflexivity.
  - intros ->. split; [reflexivity|].
    eapply StronglySorted_subsequence; [apply drop_duplicates_subsequence|].
    apply flagged_rows_sorted.
  - exact Hsub.
  - intros parse raw Hload. apply Hsub.
    destruct (load_base parse raw base Hload) as [i' [Hpos' [Hsorted _]]].
    rewrite Hpos in Hpos'. injection Hpos' as <-. exact Hsorted.
Qed.

Lemma C7_order_witness :
  positions "PVNumber" (columns C7_table) = [0] /\
  exists mask out,
    query_mask Text.int_literal C7_table (C7_query true) = Ok mask /\
    evaluate Text.int_literal C7_table (C7_query true) = Ok out /\
    StronglySorted (fun a b => flagged_leb 0 a b = true) (rows out).
Proof.
  assert (Hpos : positions "PVNumber" (columns C7_table) = [0]) by reflexivity.
  destruct (is_ok_inv (query_mask Text.int_literal C7_table (C7_query true)))
    as [mask Hmask]; [vm_compute; reflexivity|].
  destruct (C7_order Text.int_literal C7_table (C7_query true) mask 0 Hpos Hmask)
    as [out [H1 [_ [H3 _]]]].
  split; [exact Hpos|]. exists mask, out.
  split; [exact Hmask|]. split; [exact H1|]. exact (proj2 (H3 eq_refl)).
Defined.

(** ** Worked examples *)

(** The header "PV No" becomes PVNumber, "  format " becomes Shape, and
    "Random Column" is dropped. *)
Example normalize_headers :
  columns (normalize sheet_headers) = REQUIRED_COLUMNS /\
  map cells (rows (normalize sheet_headers)) =
    [ [Str "P1"; NA; NA; NA; NA; NA; NA; NA; NA; NA; Str "Round"; NA; NA; NA; NA] ].
Proof. split; vm_compute; reflexivity. Qed.

(** With two CodeDate columns the derivation of the numeric date raises,
    and the upload fails. *)
Example code_date_twice :
  load Text.int_literal C8_twice = Raise (NotUnique "CodeDate").
Proof. vm_compute. reflexivity. Qed.

(** Two records of P1: keep-latest alone returns the record of
    20240101. *)
Example keep_latest_alone :
  result_labels
    (evaluate Text.int_literal C1_base
       (mkQuery EmptyString [] [] EmptyString EmptyString true)) = Some [0].
Proof. vm_compute. reflexivity. Qed.

(** The basic filter Shape in {"Round"} keeps the two round rows. *)
Example basic_filter_shape :
  result_labels
    (evaluate Text.int_literal base_shapes
       (mkQuery EmptyString [("Shape", ["Round"])] [] EmptyString EmptyString false))
  = Some [0; 2].
Proof. vm_compute. reflexivity. Qed.

(** Description contains "chip" keeps "Potato Chips" and "Microchip
    Tray", not "Cookie". *)
Example contains_chip :
  result_labels
    (evaluate Text.int_literal base_shapes
       (mkQuery EmptyString [] [("Description", mkCond "contains" "chip")]
                EmptyString EmptyString false))
  = Some [0; 1].
Proof. vm_compute. reflexivity. Qed.

(** The date range 20230101 to 20230601 keeps the record of 20230301 and
    neither the later one nor the one without a date. *)
Example date_range_excludes_missing :
  result_labels
    (evaluate Text.int_literal base_shapes
       (mkQuery EmptyString [] [] "20230101" "20230601" false))
  = Some [1].
Proof. vm_compute. reflexivity. Qed.

(** A bound that is no number switches the range off. *)
Example date_range_soft_fail :
  result_labels
    (evaluate Text.int_literal base_shapes
       (mkQuery EmptyString [] [] "2023-01-01" "20230601" false))
  = Some [0; 1; 2].
Proof. vm_compute. reflexivity. Qed.

(** * Further properties *)

(** ** Dictionaries *)

Lemma dict_get_set_same {V} (k : string) (v : V) (d : list (string * V)) :
  dict_get k (dict_set k v d) = Some v.
Proof.
  induction d as [|[k' v'] d IH]; simpl.
  - rewrite String.eqb_refl. reflexivity.
  - destruct (String.eqb_spec k' k) as [->|Hk]; simpl.
    + rewrite String.eqb_refl. reflexivity.
    + destruct (String.eqb_spec k' k); [contradiction | exact IH].
Qed.

Lemma dict_get_set_other {V} (k k0 : string) (v : V) (d : list (string * V)) :
  k0 <> k -> dict_get k0 (dict_set k v d) = dict_get k0 d.
Proof.
  intros Hk. induction d as [|[k' v'] d IH]; simpl.
  - destruct (String.eqb_spec k k0); [congruence | reflexivity].
  - destruct (String.eqb_spec k' k) as [->|Hk']; simpl.
    + destruct (String.eqb_spec k k0); [congruence | reflexivity].
    + destruct (String.eqb_spec k' k0); [reflexivity | exact IH].
Qed.

Lemma dict_set_In {V} (k k0 : string) (v v0 : V) (d : list (string * V)) :
  In (k0, v0) (dict_set k v d) -> (k0, v0) = (k, v) \/ In (k0, v0) d.
Proof.
  induction d as [|[k' v'] d IH]; simpl.
  - intros [H|[]]. left. symmetry. exact H.
  - destruct (String.eqb_spec k' k) as [->|Hk]; simpl.
    + intros [H|H]; [left; symmetry; exact H | right; right; exact H].
    + intros [H|H]; [right; left; exact H|].
      destruct (IH H) as [E|E]; [left; exact E | right; right; exact E].
Qed.

Lemma dict_get_In {V} (k : string) (v : V) (d : list (string * V)) :
  dict_get k d = Some v -> In (k, v) d.
Proof.
  induction d as [|[k' v'] d IH]; simpl; [discriminate|].
  destruct (String.eqb_spec k' k) as [->|Hk].
  - intros [= ->]. left. reflexivity.
  - intros H. right. apply IH. exact H.
Qed.

Lemma dict_set_values {V} (k : string) (v x : V) (d : list (string * V)) :
  In x (map snd (dict_set k v d)) -> x = v \/ In x (map snd d).
Proof.
  induction d as [|[k' v'] d IH]; simpl.
  - intros [H|[]]. left. symmetry. exact H.
  - destruct (String.eqb_spec k' k) as [->|Hk]; simpl.
    + intros [H|H]; [left; symmetry; exact H | right; right; exact H].
    + intros [H|H]; [right; left; exact H|].
      destruct (IH H) as [E|E]; [left; exact E | right; right; exact E].
Qed.

Lemma dict_set_values_NoDup {V} (k : string) (v : V) (d : list (string * V)) :
  NoDup (map snd d) -> ~ In v (map snd d) -> NoDup (map snd (dict_set k v d)).
Proof.
  induction d as [|[k' v'] d IH]; simpl; intros Hnd Hv.
  - constructor; [tauto | constructor].
  - inversion Hnd; subst. destruct (String.eqb_spec k' k) as [->|Hk]; simpl.
    + constructor; [tauto | assumption].
    + constructor.
      * intros H. apply dict_set_values in H. destruct H as [->|H]; tauto.
      * apply IH; tauto.
Qed.

(** Two keys with the same value, among distinct values, are one key. *)
Lemma values_NoDup_key {V} (d : list (string * V)) (k k' : string) (v : V) :
  NoDup (map snd d) -> In (k, v) d -> In (k', v) d -> k = k'.
Proof.
  induction d as [|[k0 v0] d IH]; simpl; [contradiction|].
  intros Hnd H1 H2. inversion Hnd as [|? ? Hv Hnd']; subst.
  destruct H1 as [E1|H1], H2 as [E2|H2].
  - congruence.
  - exfalso. apply Hv. injection E1 as _ ->.
    change v with (snd (k', v)). apply in_map. exact H2.
  - exfalso. apply Hv. injection E2 as _ ->.
    change v with (snd (k, v)). apply in_map. exact H1.
  - apply IH; assumption.
Qed.

(** ** Header stripping and aliasing *)

Lemma strip_map_lookup (cols : list string) (d : list (string * string)) (c : string) :
  In c cols \/ dict_get c d = Some (Text.strip c) ->
  dict_get c (fold_left (fun m c => dict_set c (Text.strip c) m) cols d)
  = Some (Text.strip c).
Proof.
  revert d. induction cols as [|x cols IH]; intros d H; simpl.
  - destruct H as [[]|H]. exact H.
  - apply IH. destruct (String.eqb_spec x c) as [->|Hx].
    + right. apply dict_get_set_same.
    + destruct H as [[E|H]|H]; [contradiction | left; exact H|].
      right. rewrite dict_get_set_other by congruence. exact H.
Qed.

Lemma strip_columns_columns (df : DataFrame) :
  columns (_strip_columns df) = map Text.strip (columns df).
Proof.
  unfold _strip_columns, rename_columns. cbn [columns].
  apply map_ext_in. intros c Hc. rewrite strip_map_lookup by (left; exact Hc).
  reflexivity.
Qed.

Lemma lowered_entries (cols : list string) (low orig : string) :
  In (low, orig) (lowered cols) -> In orig cols /\ low = Text.lower orig.
Proof.
  unfold lowered.
  assert (H : forall d,
             (forall l o, In (l, o) d -> In o cols /\ l = Text.lower o) ->
             forall sub, incl sub cols ->
               forall l o, In (l, o) (fold_left (fun d c => dict_set (Text.lower c) c d) sub d) ->
                 In o cols /\ l = Text.lower o).
  { intros d Hd sub. revert d Hd. induction sub as [|x sub IH]; intros d Hd Hsub l o; simpl.
    - apply Hd.
    - apply IH.
      + intros l' o' Hin. apply dict_set_In in Hin. destruct Hin as [[= -> ->]|Hin].
        * split; [apply Hsub; left; reflexivity | reflexivity].
        * apply Hd. exact Hin.
      + intros y Hy. apply Hsub. right. exact Hy. }
  apply (H [] (fun l o (Hin : In (l, o) []) => match Hin with end) cols (incl_refl cols)).
Qed.

Lemma alias_keys : map fst HEADER_ALIASES = REQUIRED_COLUMNS.
Proof. reflexivity. Qed.

Lemma alias_fold_sound (cols : list string) (L : list (string * string))
  (rm : list (string * string)) :
  NoDup (map fst L) -> incl L HEADER_ALIASES ->
  (forall canon, In canon (map fst L) -> ~ In canon (map snd rm)) ->
  alias_sound cols rm ->
  alias_sound cols
    (fold_left
       (fun rename_map '(canon, pattern) =>
          if has_column canon cols then rename_map
          else match find (fun '(low, _) => alias_match pattern low) (lowered cols) with
               | Some (_, orig) => dict_set orig canon rename_map
               | None => rename_map
               end)
       L rm).
Proof.
  revert rm. induction L as [|[canon pattern] L IH]; intros rm Hnd Hincl Hfresh Hs.
  - exact Hs.
  - cbn [fold_left]. cbn [map fst] in Hnd, Hfresh. inversion Hnd as [|? ? Hc Hnd']; subst.
    assert (HinclL : incl L HEADER_ALIASES) by (intros x Hx; apply Hincl; right; exact Hx).
    assert (Hfresh' : forall c, In c (map fst L) -> ~ In c (map snd rm))
      by (intros c Hin; apply Hfresh; right; exact Hin).
    destruct (has_column canon cols) eqn:Hcol; [apply IH; assumption|].
    destruct (find (fun '(low, _) => alias_match pattern low) (lowered cols))
      as [[low orig]|] eqn:Hfind; [|apply IH; assumption].
    apply find_some in Hfind. destruct Hfind as [Hlow Hmatch].
    apply lowered_entries in Hlow. destruct Hlow as [Horig ->].
    destruct Hs as [Hent Hval].
    apply IH; [assumption | assumption | |].
    + intros c Hin Hv. apply dict_set_values in Hv. destruct Hv as [->|Hv].
      * contradiction.
      * exact (Hfresh' c Hin Hv).
    + split.
      * intros o c Hin. apply dict_set_In in Hin. destruct Hin as [E|Hin].
        -- injection E as -> ->. split; [exact Horig|]. split; [exact Hcol|].
           exists pattern. split; [apply Hincl; left; reflexivity | exact Hmatch].
        -- apply Hent. exact Hin.
      * apply dict_set_values_NoDup; [exact Hval|].
        apply Hfresh. left. reflexivity.
Qed.

Lemma alias_rename_map_sound (cols : list string) :
  alias_sound cols (alias_rename_map cols).
Proof.
  unfold alias_rename_map. apply alias_fold_sound.
  - rewrite alias_keys. apply REQUIRED_COLUMNS_NoDup.
  - apply incl_refl.
  - intros c _ [].
  - split; [intros o c [] | constructor].
Qed.

Lemma NoDup_map_on {A B} (f : A -> B) (l : list A) :
  (forall x y, In x l -> In y l -> f x = f y -> x = y) ->
  NoDup l -> NoDup (map f l).
Proof.
  intros Hinj Hnd. induction Hnd as [|x l Hx Hnd IH]; simpl; constructor.
  - intros Hin. apply in_map_iff in Hin. destruct Hin as [y [E Hy]].
    assert (y = x) by (apply Hinj; simpl; auto). subst. contradiction.
  - apply IH. intros a b Ha Hb. apply Hinj; simpl; auto.
Qed.

(** Aliasing keeps distinct headers distinct. *)
Lemma alias_columns_NoDup (df : DataFrame) :
  NoDup (columns df) -> NoDup (columns (_apply_header_aliases df)).
Proof.
  intros Hnd. unfold _apply_header_aliases, rename_columns. cbn [columns].
  destruct (alias_rename_map_sound (columns df)) as [Hent Hval].
  apply NoDup_map_on; [|exact Hnd].
  intros x y Hx Hy.
  destruct (dict_get x (alias_rename_map (columns df))) as [vx|] eqn:Ex;
    destruct (dict_get y (alias_rename_map (columns df))) as [vy|] eqn:Ey.
  - intros ->. apply dict_get_In in Ex, Ey. eapply values_NoDup_key; eassumption.
  - intros ->. apply dict_get_In in Ex. destruct (Hent _ _ Ex) as [_ [Hc _]].
    apply has_column_In in Hy. congruence.
  - intros <-. apply dict_get_In in Ey. destruct (Hent _ _ Ey) as [_ [Hc _]].
    apply has_column_In in Hx. congruence.
  - auto.
Qed.

Lemma positions_from_NoDup (k : nat) (c : string) (cols : list string) :
  NoDup cols -> List.length (positions_from k c cols) <= 1.
Proof.
  intros Hnd. revert k. induction Hnd as [|x cols Hx Hnd IH]; intros k; simpl; [lia|].
  rewrite length_app. destruct (String.eqb_spec x c) as [->|_]; simpl.
  - rewrite positions_from_none by assumption. simpl. lia.
  - apply IH.
Qed.

(** No required label matches the alias pattern of another field. *)
Lemma required_only_own_alias (canon pattern c : string) :
  In (canon, pattern) HEADER_ALIASES -> In c REQUIRED_COLUMNS ->
  alias_match pattern (Text.lower c) = true -> canon = c.
Proof.
  intros Hrule Hc Hm.
  assert (Hall : forallb
            (fun rule : string * string =>
               forallb
                 (fun c => negb (alias_match (snd rule) (Text.lower c))
                           || String.eqb (fst rule) c)
                 REQUIRED_COLUMNS)
            HEADER_ALIASES = true) by (vm_compute; reflexivity).
  rewrite forallb_forall in Hall. specialize (Hall _ Hrule).
  rewrite forallb_forall in Hall. specialize (Hall _ Hc).
  cbn [fst snd] in Hall. rewrite Hm in Hall. apply String.eqb_eq. exact Hall.
Qed.

Lemma alias_match_spelling (pattern low : string) :
  alias_match pattern low = true ->
  exists sp, In sp (alias_spellings pattern) /\
    (Text.lower low = Text.lower sp \/
     Text.lower low = (Text.lower sp ++ String (ascii_of_nat 10) EmptyString)%string).
Proof.
  unfold alias_match. rewrite existsb_exists. intros [sp [Hsp H]].
  exists sp. split; [exact Hsp|]. apply orb_true_iff in H.
  destruct H as [H|H]; apply String.eqb_eq in H; auto.
Qed.

(** No header matches the alias patterns of two fields. *)
Lemma aliases_disjoint (canon p canon' p' low : string) :
  In (canon, p) HEADER_ALIASES -> In (canon', p') HEADER_ALIASES ->
  alias_match p low = true -> alias_match p' low = true -> canon = canon'.
Proof.
  intros Hr Hr' Hm Hm'.
  assert (Hall : forallb
            (fun r : string * string =>
               forallb
                 (fun r' : string * string =>
                    String.eqb (fst r) (fst r') || negb (spellings_clash (snd r) (snd r')))
                 HEADER_ALIASES)
            HEADER_ALIASES = true) by (vm_compute; reflexivity).
  rewrite forallb_forall in Hall. specialize (Hall _ Hr).
  rewrite forallb_forall in Hall. specialize (Hall _ Hr'). cbn [fst snd] in Hall.
  apply orb_true_iff in Hall. destruct Hall as [E|Hno]; [apply String.eqb_eq; exact E|].
  exfalso. apply negb_true_iff in Hno.
  apply alias_match_spelling in Hm, Hm'.
  destruct Hm as [sp [Hsp Hl]], Hm' as [sp' [Hsp' Hl']].
  assert (Hclash : spellings_clash p p' = true).
  { unfold spellings_clash. apply existsb_exists. exists sp. split; [exact Hsp|].
    apply existsb_exists. exists sp'. split; [exact Hsp'|].
    rewrite !orb_true_iff, !String.eqb_eq.
    destruct Hl as [Hl|Hl], Hl' as [Hl'|Hl']; rewrite Hl in Hl'; auto. }
  congruence.
Qed.

Lemma alias_rename_map_fold (cols : list string) :
  alias_rename_map cols = alias_fold cols HEADER_ALIASES [].
Proof. unfold alias_rename_map, alias_fold. reflexivity. Qed.

Lemma lowered_has (cols : list string) (h : string) :
  In h cols -> dict_get (Text.lower h) (lowered cols) <> None.
Proof.
  unfold lowered.
  assert (H : forall sub d,
             In h sub \/ dict_get (Text.lower h) d <> None ->
             dict_get (Text.lower h)
               (fold_left (fun d c => dict_set (Text.lower c) c d) sub d) <> None).
  { induction sub as [|x sub IH]; intros d Hd; simpl.
    - destruct Hd as [[]|Hd]. exact Hd.
    - apply IH. destruct (String.eqb_spec (Text.lower x) (Text.lower h)) as [E|E].
      + right. rewrite E, dict_get_set_same. discriminate.
      + destruct Hd as [[->|Hd]|Hd]; [congruence | left; exact Hd|].
        right. rewrite dict_get_set_other by congruence. exact Hd. }
  intros Hh. apply H. left. exact Hh.
Qed.

Lemma alias_fold_keeps (cols : list string) (L : list (string * string))
  (rm : list (string * string)) (orig canon pattern : string) :
  In (canon, pattern) HEADER_ALIASES ->
  alias_match pattern (Text.lower orig) = true ->
  incl L HEADER_ALIASES -> ~ In canon (map fst L) ->
  dict_get orig rm = Some canon ->
  dict_get orig (alias_fold cols L rm) = Some canon.
Proof.
  intros Hrule Hm. revert rm.
  induction L as [|[canon' pattern'] L IH]; intros rm Hincl Hfresh Hget.
  - exact Hget.
  - unfold alias_fold. cbn [fold_left]. fold (alias_fold cols L).
    assert (HinclL : incl L HEADER_ALIASES) by (intros x Hx; apply Hincl; right; exact Hx).
    assert (HfreshL : ~ In canon (map fst L)) by (intros H; apply Hfresh; right; exact H).
    destruct (has_column canon' cols); [apply IH; assumption|].
    destruct (find (fun '(low, _) => alias_match pattern' low) (lowered cols))
      as [[low orig']|] eqn:Hfind; [|apply IH; assumption].
    apply IH; [assumption | assumption|].
    apply find_some in Hfind. destruct Hfind as [Hlow Hmatch].
    apply lowered_entries in Hlow. destruct Hlow as [_ ->].
    rewrite dict_get_set_other; [exact Hget|].
    intros ->. apply Hfresh. left. cbn [fst].
    symmetry. eapply aliases_disjoint; [exact Hrule| |exact Hm|exact Hmatch].
    apply Hincl. left. reflexivity.
Qed.

Lemma alias_fold_adds (cols : list string) (L : list (string * string))
  (rm : list (string * string)) (canon pattern h : string) :
  NoDup (map fst L) -> incl L HEADER_ALIASES -> In (canon, pattern) L ->
  has_column canon cols = false ->
  In h cols -> alias_match pattern (Text.lower h) = true ->
  exists orig, In orig cols /\ dict_get orig (alias_fold cols L rm) = Some canon.
Proof.
  intros Hnd Hincl Hin Hcol Hh Hm. revert rm Hnd Hincl Hin.
  induction L as [|[canon' pattern'] L IH]; intros rm Hnd Hincl Hin; [contradiction|].
  cbn [map fst] in Hnd. inversion Hnd as [|? ? Hc Hnd']; subst.
  assert (HinclL : incl L HEADER_ALIASES) by (intros x Hx; apply Hincl; right; exact Hx).
  unfold alias_fold. cbn [fold_left]. fold (alias_fold cols L).
  destruct Hin as [E|Hin].
  - injection E as -> ->. rewrite Hcol.
    destruct (find (fun '(low, _) => alias_match pattern low) (lowered cols))
      as [[low orig]|] eqn:Hfind.
    + apply find_some in Hfind. destruct Hfind as [Hlow Hmatch].
      apply lowered_entries in Hlow. destruct Hlow as [Horig ->].
      exists orig. split; [exact Horig|].
      apply (alias_fold_keeps cols L _ orig canon pattern); auto.
      * apply Hincl. left. reflexivity.
      * apply dict_get_set_same.
    + exfalso. pose proof (lowered_has cols h Hh) as Hl.
      destruct (dict_get (Text.lower h) (lowered cols)) as [o|] eqn:Eo; [|congruence].
      apply dict_get_In in Eo.
      pose proof (find_none _ _ Hfind _ Eo) as Hno. cbv beta iota in Hno. congruence.
  - destruct (has_column canon' cols); [apply IH; assumption|].
    destruct (find (fun '(low, _) => alias_match pattern' low) (lowered cols))
      as [[low orig']|]; apply IH; assumption.
Qed.

Lemma positions_from_eq_refl (k : nat) (c : string) (cols : list string) :
  NoDup cols -> In c cols -> List.length (positions_from k c cols) = 1.
Proof.
  intros Hnd Hin. pose proof (positions_from_NoDup k c cols Hnd).
  pose proof (positions_from_some k c cols Hin). lia.
Qed.

(** ** Normalisation *)

(** X1. Normalisation keeps every row of the sheet, in order and with its
    index label, and gives each row exactly one cell per column of the
    normalised table, whatever the shape of the sheet. *)
Theorem normalize_keeps_rows (raw : DataFrame) :
  map index (rows (normalize raw)) = map index (rows raw) /\
  Forall (fun r => List.length (cells r) = List.length (columns (normalize raw)))
         (rows (normalize raw)).
Proof.
  unfold normalize, _ensure_required, take_columns.
  set (df := _apply_header_aliases (_strip_columns raw)).
  rewrite ensure_fold_rows. cbn [rows columns]. split.
  - rewrite !map_map. cbn [index]. reflexivity.
  - rewrite Forall_forall. intros r Hr. apply in_map_iff in Hr.
    destruct Hr as [x [<- _]]. cbn [cells]. rewrite !length_map. reflexivity.
Qed.

(** X2. For every sheet whose headers are pairwise distinct once
    stripped, the normalised table has exactly the required columns, in
    their order. *)
Theorem normalize_distinct_headers (raw : DataFrame) :
  NoDup (map Text.strip (columns raw)) ->
  columns (normalize raw) = REQUIRED_COLUMNS.
Proof.
  intros Hnd. apply normalize_schema. intros c _. unfold positions.
  apply positions_from_NoDup. apply alias_columns_NoDup.
  rewrite strip_columns_columns. exact Hnd.
Qed.

Lemma normalize_distinct_headers_witness :
  NoDup (map Text.strip (columns sheet_headers)) /\
  columns (normalize sheet_headers) = REQUIRED_COLUMNS.
Proof.
  assert (H : NoDup (map Text.strip (columns sheet_headers))).
  { cbn. repeat (constructor; [simpl; intros H; repeat (destruct H as [H|H]; [discriminate H|]); exact H|]).
    constructor. }
  split; [exact H|]. exact (normalize_distinct_headers sheet_headers H).
Defined.

(** X3. Aliasing renames a header only to a required label that the
    sheet does not have and whose alias pattern the lower-cased header
    matches; every other header is left as it is, and a header that is
    itself a required label is never renamed. *)
Theorem alias_renames_soundly (df : DataFrame) (j : nat) (c c' : string) :
  nth_error (columns df) j = Some c ->
  nth_error (columns (_apply_header_aliases df)) j = Some c' ->
  (c' = c \/
   (has_column c' (columns df) = false /\
    exists pattern, In (c', pattern) HEADER_ALIASES /\
                    alias_match pattern (Text.lower c) = true)) /\
  (In c REQUIRED_COLUMNS -> c' = c).
Proof.
  intros Hc. unfold _apply_header_aliases, rename_columns. cbn [columns].
  rewrite nth_error_map, Hc. cbn [option_map].
  destruct (alias_rename_map_sound (columns df)) as [Hent _].
  destruct (dict_get c (alias_rename_map (columns df))) as [v|] eqn:Ev.
  - intros [= <-]. apply dict_get_In in Ev.
    destruct (Hent _ _ Ev) as [Hin [Hcol [pattern [Hrule Hm]]]]. split.
    + right. split; [exact Hcol|]. exists pattern. split; [exact Hrule | exact Hm].
    + intros Hreq. pose proof (required_only_own_alias _ _ _ Hrule Hreq Hm) as E.
      subst. apply has_column_In in Hin. congruence.
  - intros [= <-]. split; [left; reflexivity | reflexivity].
Qed.

Lemma alias_renames_soundly_witness :
  nth_error (columns (_strip_columns sheet_headers)) 0 = Some "PV No" /\
  nth_error (columns (_apply_header_aliases (_strip_columns sheet_headers))) 0
    = Some "PVNumber" /\
  ("PVNumber" = "PV No" \/
   (has_column "PVNumber" (columns (_strip_columns sheet_headers)) = false /\
    exists pattern, In ("PVNumber", pattern) HEADER_ALIASES /\
                    alias_match pattern (Text.lower "PV No") = true)).
Proof.
  assert (H1 : nth_error (columns (_strip_columns sheet_headers)) 0 = Some "PV No")
    by (vm_compute; reflexivity).
  assert (H2 : nth_error (columns (_apply_header_aliases (_strip_columns sheet_headers))) 0
               = Some "PVNumber") by (vm_compute; reflexivity).
  split; [exact H1|]. split; [exact H2|].
  exact (proj1 (alias_renames_soundly (_strip_columns sheet_headers) 0 _ _ H1 H2)).
Defined.

(** X4. When a required label is not a header of the sheet and some
    header, lower-cased, matches its alias pattern, the aliased table has
    that label as a column. *)
Theorem alias_finds_field (df : DataFrame) (canon pattern h : string) :
  In (canon, pattern) HEADER_ALIASES ->
  has_column canon (columns df) = false ->
  In h (columns df) ->
  alias_match pattern (Text.lower h) = true ->
  In canon (columns (_apply_header_aliases df)).
Proof.
  intros Hrule Hcol Hh Hm.
  destruct (alias_fold_adds (columns df) HEADER_ALIASES [] canon pattern h)
    as [orig [Horig Hget]]; auto.
  - rewrite alias_keys. apply REQUIRED_COLUMNS_NoDup.
  - apply incl_refl.
  - unfold _apply_header_aliases, rename_columns. cbn [columns].
    apply in_map_iff. exists orig. split; [|exact Horig].
    rewrite alias_rename_map_fold, Hget. reflexivity.
Qed.

Lemma alias_finds_field_witness :
  In "Shape" (columns (_apply_header_aliases (_strip_columns sheet_headers))).
Proof.
  apply (alias_finds_field (_strip_columns sheet_headers) "Shape" "shape|format" "format").
  - unfold HEADER_ALIASES. simpl. do 10 right. left. reflexivity.
  - vm_compute. reflexivity.
  - vm_compute. right. right. left. reflexivity.
  - vm_compute. reflexivity.
Defined.

(** ** Canonical tables *)

Lemma canonical_row (r : Row) :
  List.length (cells r) = 15 ->
  mkRow (index r) (map (fun i => nth i (cells r) NaN) (seq 0 15)) = r.
Proof.
  destruct r as [ix cs]. cbn [cells index]. intros H.
  do 15 (destruct cs as [|? cs]; [discriminate H|]).
  destruct cs; [reflexivity | discriminate H].
Qed.

Lemma canonical_rows (rs : list Row) :
  Forall (fun r => List.length (cells r) = 15) rs ->
  map (fun r => mkRow (index r) (map (fun i => nth i (cells r) NaN) (seq 0 15))) rs = rs.
Proof.
  induction 1 as [|r rs' Hlen _ IH]; [reflexivity|].
  cbn [map]. rewrite IH, (canonical_row r Hlen). reflexivity.
Qed.

Lemma normalize_canonical_id (df : DataFrame) : canonical df -> normalize df = df.
Proof.
  destruct df as [cols rs]. intros [Hc Hr]. cbn [columns rows] in Hc, Hr. subst cols.
  unfold normalize.
  assert (E1 : _strip_columns (mkFrame REQUIRED_COLUMNS rs) = mkFrame REQUIRED_COLUMNS rs).
  { unfold _strip_columns, rename_columns. cbn [columns rows]. f_equal. }
  rewrite E1.
  assert (E2 : _apply_header_aliases (mkFrame REQUIRED_COLUMNS rs)
               = mkFrame REQUIRED_COLUMNS rs).
  { unfold _apply_header_aliases, rename_columns. cbn [columns rows]. f_equal. }
  rewrite E2.
  unfold _ensure_required. cbv zeta.
  match goal with
  | |- context [fold_left ?f ?l ?d] =>
      assert (E3 : fold_left f l d = d) by (vm_compute; reflexivity); rewrite E3
  end.
  unfold take_columns. cbn [columns rows].
  assert (E4 : flat_map (fun c => positions c REQUIRED_COLUMNS) REQUIRED_COLUMNS = seq 0 15)
    by (vm_compute; reflexivity).
  rewrite E4.
  rewrite (canonical_rows rs Hr). reflexivity.
Qed.

Lemma normalize_canonical (raw : DataFrame) :
  NoDup (map Text.strip (columns raw)) -> canonical (normalize raw).
Proof.
  intros Hnd.
  assert (Hc : columns (normalize raw) = REQUIRED_COLUMNS).
  { apply normalize_schema. intros c _. unfold positions.
    apply positions_from_NoDup. apply alias_columns_NoDup.
    rewrite strip_columns_columns. exact Hnd. }
  split; [exact Hc|].
  assert (Hw : Forall (fun r => List.length (cells r)
                                = List.length (columns (normalize raw)))
                      (rows (normalize raw))).
  { unfold normalize, _ensure_required, take_columns.
    rewrite ensure_fold_rows. cbn [rows columns].
    rewrite Forall_forall. intros r Hr. apply in_map_iff in Hr.
    destruct Hr as [x [<- _]]. cbn [cells]. rewrite !length_map. reflexivity. }
  rewrite Hc in Hw. exact Hw.
Qed.

(** X5. Normalisation leaves a table that already has the canonical
    schema (the required columns in their order, one cell per column in
    every row) exactly as it is. *)
Theorem normalize_canonical_table (df : DataFrame) :
  canonical df -> normalize df = df.
Proof. apply normalize_canonical_id. Qed.

Lemma normalize_canonical_table_witness :
  canonical canonical_sheet /\ normalize canonical_sheet = canonical_sheet.
Proof.
  assert (H : canonical canonical_sheet).
  { split; [reflexivity|]. repeat constructor. }
  split; [exact H|]. exact (normalize_canonical_table canonical_sheet H).
Defined.

(** X6. Normalisation is idempotent on every sheet whose headers are
    pairwise distinct once stripped: normalising the normalised table
    changes nothing. *)
Theorem normalize_idempotent (raw : DataFrame) :
  NoDup (map Text.strip (columns raw)) ->
  normalize (normalize raw) = normalize raw.
Proof.
  intros H. apply normalize_canonical_id. apply normalize_canonical. exact H.
Qed.

Lemma normalize_idempotent_witness :
  NoDup (map Text.strip (columns sheet_headers)) /\
  normalize (normalize sheet_headers) = normalize sheet_headers.
Proof.
  assert (H : NoDup (map Text.strip (columns sheet_headers))).
  { cbn. repeat (constructor; [simpl; intros H; repeat (destruct H as [H|H]; [discriminate H|]); exact H|]).
    constructor. }
  split; [exact H|]. exact (normalize_idempotent sheet_headers H).
Defined.

(** ** The upload as a whole *)

Lemma positions_required :
  positions "CodeDate" REQUIRED_COLUMNS = [7] /\
  positions "PVNumber" REQUIRED_COLUMNS = [0].
Proof. split; vm_compute; reflexivity. Qed.

Lemma derive_canonical (parse : string -> option Z) (df : DataFrame) :
  columns df = REQUIRED_COLUMNS ->
  (d <- _parse_code_date_numeric parse df ;; _latest_per_pv_flag d) =
  Ok (upload_table parse df).
Proof.
  intros Hc. destruct positions_required as [Hcd Hpv].
  unfold _parse_code_date_numeric. rewrite Hc, Hcd. cbn [bind].
  unfold _latest_per_pv_flag. cbn [columns rows]. rewrite Hpv. reflexivity.
Qed.

Lemma load_canonical (parse : string -> option Z) (raw : DataFrame) :
  NoDup (map Text.strip (columns raw)) ->
  load parse raw = Ok (upload_table parse (normalize raw)).
Proof.
  intros Hnd. destruct (normalize_canonical raw Hnd) as [Hc _].
  rewrite load_unfold. apply derive_canonical. exact Hc.
Qed.

Lemma upload_table_perm (parse : string -> option Z) (df : DataFrame) :
  Permutation (map (fun f : Flagged => d_row f) (rows (upload_table parse df))) (rows df).
Proof.
  unfold upload_table. cbn [rows].
  rewrite <- (map_map f_dated d_row), flag_first_rows.
  apply Permutation_trans with (map d_row (dated_rows parse df)).
  - apply Permutation_map. apply stable_sort_perm.
  - unfold dated_rows. rewrite map_map. cbn [d_row]. rewrite map_id. apply Permutation_refl.
Qed.

Lemma upload_table_dates (parse : string -> option Z) (df : DataFrame) (f : Flagged) :
  In f (rows (upload_table parse df)) ->
  CodeDate_num f = to_numeric parse (cell_at 7 f).
Proof.
  unfold upload_table. cbn [rows]. intros Hf.
  assert (Hd : In (f_dated f) (sort_values 0 (dated_rows parse df))).
  { rewrite <- (flag_first_rows (dated_key 0) []). apply in_map. exact Hf. }
  apply stable_sort_In in Hd. unfold dated_rows in Hd. apply in_map_iff in Hd.
  destruct Hd as [x [Hx _]]. rewrite <- Hx. reflexivity.
Qed.

Lemma normalize_index (raw : DataFrame) :
  map (fun r : Row => index r) (rows (normalize raw)) = map index (rows raw).
Proof.
  unfold normalize, _ensure_required, take_columns.
  rewrite ensure_fold_rows. cbn [rows]. rewrite !map_map. reflexivity.
Qed.

(** X7. The upload of a sheet whose headers are pairwise distinct once
    stripped succeeds.  The table it builds has exactly the required
    columns; its rows are the rows of the normalised sheet in some order,
    none lost and none added; and the numeric code date of every row is
    the number read from its own CodeDate cell. *)
Theorem load_succeeds (parse : string -> option Z) (raw : DataFrame) :
  NoDup (map Text.strip (columns raw)) ->
  exists base,
    load parse raw = Ok base /\
    columns base = REQUIRED_COLUMNS /\
    Permutation (map (fun f : Flagged => d_row f) (rows base)) (rows (normalize raw)) /\
    map (fun r : Row => index r) (rows (normalize raw)) = map index (rows raw) /\
    forall f : Flagged, In f (rows base) ->
      CodeDate_num f = to_numeric parse (cell_at 7 f).
Proof.
  intros Hnd. exists (upload_table parse (normalize raw)).
  split; [apply load_canonical; exact Hnd|].
  split; [reflexivity|]. split; [|split].
  - apply upload_table_perm.
  - apply normalize_index.
  - apply upload_table_dates.
Qed.

Lemma load_succeeds_witness :
  NoDup (map Text.strip (columns sheet_shapes)) /\
  exists base,
    load Text.int_literal sheet_shapes = Ok base /\
    columns base = REQUIRED_COLUMNS.
Proof.
  assert (H : NoDup (map Text.strip (columns sheet_shapes))).
  { cbn. repeat (constructor; [simpl; intros H; repeat (destruct H as [H|H]; [discriminate H|]); exact H|]).
    constructor. }
  split; [exact H|].
  destruct (load_succeeds Text.int_literal sheet_shapes H) as [base [Hb [Hc _]]].
  exists base. split; assumption.
Defined.




(** ** Keep-latest on the whole table *)

Lemma drop_duplicates_flag_first (i : nat) (seen : list cell) (l : list Dated) :
  drop_duplicates_from (flagged_key i) seen (flag_first (dated_key i) seen l) =
  filter IsLatestPerPV (flag_first (dated_key i) seen l).
Proof.
  revert seen. induction l as [|x l IH]; intros seen; [reflexivity|].
  rewrite flag_first_cons, drop_duplicates_from_cons.
  cbn [filter IsLatestPerPV].
  change (flagged_key i (mkFlagged x (negb (existsb (cell_eqb (dated_key i x)) seen))))
    with (dated_key i x).
  rewrite IH. destruct (existsb (cell_eqb (dated_key i x)) seen); reflexivity.
Qed.

Lemma derive_rows (parse : string -> option Z) (df : DataFrame) (base : Frame Flagged) :
  In "PVNumber" (columns df) ->
  (d <- _parse_code_date_numeric parse df ;; _latest_per_pv_flag d) = Ok base ->
  exists i l,
    positions "PVNumber" (columns base) = [i] /\
    rows base = flag_first (dated_key i) [] (sort_values i l).
Proof.
  intros Hpv. apply positions_unique_or_raise in Hpv.
  unfold _parse_code_date_numeric.
  destruct (positions "CodeDate" (columns df)) as [|j [|j' l]]; [| |discriminate].
  - unfold bind, _latest_per_pv_flag. cbn [columns rows].
    destruct (positions "PVNumber" (columns df)) as [|i [|i' l']] eqn:Hi;
      [contradiction Hpv; reflexivity| |discriminate].
    intros H. injection H as <-. exists i. eexists. cbn [columns rows].
    split; [exact Hi | reflexivity].
  - unfold bind, _latest_per_pv_flag. cbn [columns rows].
    destruct (positions "PVNumber" (columns df)) as [|i [|i' l']] eqn:Hi;
      [contradiction Hpv; reflexivity| |discriminate].
    intros H. injection H as <-. exists i. eexists. cbn [columns rows].
    split; [exact Hi | reflexivity].
Qed.

Lemma load_rows (parse : string -> option Z) (raw : DataFrame) (base : Frame Flagged) :
  load parse raw = Ok base ->
  exists i l,
    positions "PVNumber" (columns base) = [i] /\
    rows base = flag_first (dated_key i) [] (sort_values i l).
Proof.
  rewrite load_unfold. apply derive_rows. apply normalize_has. vm_compute. reflexivity.
Qed.

Lemma flag_first_sorted (i : nat) (l : list Dated) :
  StronglySorted (fun a b => flagged_leb i a b = true)
                 (flag_first (dated_key i) [] (sort_values i l)).
Proof.
  apply (StronglySorted_map (fun a b => sort_leb i a b = true) f_dated).
  rewrite flag_first_rows.
  apply stable_sort_sorted; intros.
  - apply sort_leb_total.
  - eapply sort_leb_trans; eassumption.
Qed.

Lemma empty_query_mask (float : string -> option Z) (base : Frame Flagged) (Q : Query) :
  Text.strip (query Q) = EmptyString ->
  (forall f, In f (basic_filters Q) -> snd f = []) ->
  adv_filters Q = [] ->
  Text.nonempty (min_str Q) && Text.nonempty (max_str Q) = false ->
  query_mask float base Q = Ok (fun _ => true).
Proof.
  intros Hq Hb Ha Hd. unfold query_mask, filters_mask.
  rewrite Hq. cbn [Text.lower Text.nonempty bind].
  rewrite basic_fold_empty by assumption. cbn [bind].
  rewrite Ha. cbn [fold_left bind]. unfold date_step. rewrite Hd. reflexivity.
Qed.

(** X9. On the table built at upload, keep-latest with no search text, no
    filter and no date range returns exactly the rows that bear the flag
    IsLatestPerPV, in the order of the table. *)
Theorem keep_latest_unfiltered (parse float : string -> option Z) (raw : DataFrame)
  (base : Frame Flagged) (Q : Query) :
  load parse raw = Ok base ->
  Text.strip (query Q) = EmptyString ->
  (forall f, In f (basic_filters Q) -> snd f = []) ->
  adv_filters Q = [] ->
  Text.nonempty (min_str Q) && Text.nonempty (max_str Q) = false ->
  keep_latest_only Q = true ->
  evaluate float base Q =
  Ok (mkFrame (columns base) (filter IsLatestPerPV (rows base))).
Proof.
  intros Hload Hq Hb Ha Hd Hk.
  destruct (load_rows parse raw base Hload) as [i [l [Hpos Hrows]]].
  rewrite (evaluate_rows float base Q (fun _ => true) i Hpos
             (empty_query_mask float base Q Hq Hb Ha Hd)).
  rewrite Hk, filter_all, Hrows.
  rewrite stable_sort_sorted_id by apply flag_first_sorted.
  unfold drop_duplicates. rewrite drop_duplicates_flag_first. reflexivity.
Qed.

Lemma keep_latest_unfiltered_witness :
  evaluate Text.int_literal C1_base (mkQuery EmptyString [] [] EmptyString EmptyString true) =
  Ok (mkFrame (columns C1_base) (filter IsLatestPerPV (rows C1_base))).
Proof.
  apply (keep_latest_unfiltered Text.int_literal Text.int_literal C1_sheet).
  - vm_compute. reflexivity.
  - reflexivity.
  - intros f [].
  - reflexivity.
  - reflexivity.
  - reflexivity.
Defined.

(** ** Evaluating a query on its own result *)

Section DuplicatesTwice.
Context {A : Type} (key : A -> cell).

Lemma drop_duplicates_keys (seen : list cell) (l : list A) :
  NoDup (map key (drop_duplicates_from key seen l)).
Proof.
  revert seen. induction l as [|x l IH]; intros seen; [constructor|].
  rewrite drop_duplicates_from_cons.
  destruct (existsb (cell_eqb (key x)) seen); [apply IH|].
  cbn [map]. constructor; [|apply IH].
  intros Hin. apply in_map_iff in Hin. destruct Hin as [r [Hk Hr]].
  apply drop_duplicates_first in Hr. destruct Hr as [Hns _].
  apply Hns. left. symmetry. exact Hk.
Qed.

Lemma drop_duplicates_distinct (seen : list cell) (l : list A) :
  NoDup (map key l) -> (forall x, In x l -> ~ In (key x) seen) ->
  drop_duplicates_from key seen l = l.
Proof.
  revert seen. induction l as [|x l IH]; intros seen Hnd Hs; [reflexivity|].
  rewrite drop_duplicates_from_cons. cbn [map] in Hnd.
  inversion Hnd as [|? ? Hx Hnd']; subst.
  destruct (existsb (cell_eqb (key x)) seen) eqn:E.
  - apply existsb_cell_In in E. exfalso. apply (Hs x); [left; reflexivity | exact E].
  - f_equal. apply IH; [exact Hnd'|].
    intros y Hy [Hk|Hk].
    + apply Hx. rewrite Hk. apply in_map. exact Hy.
    + apply (Hs y); [right; exact Hy | exact Hk].
Qed.

Lemma drop_duplicates_twice (l : list A) :
  drop_duplicates key (drop_duplicates key l) = drop_duplicates key l.
Proof.
  unfold drop_duplicates. apply drop_duplicates_distinct.
  - apply drop_duplicates_keys.
  - intros x _ [].
Qed.
End DuplicatesTwice.

Lemma filter_true {A} (p : A -> bool) (l : list A) :
  (forall x, In x l -> p x = true) -> filter p l = l.
Proof.
  induction l as [|x l IH]; intros H; [reflexivity|]. cbn [filter].
  rewrite (H x) by (left; reflexivity). f_equal. apply IH.
  intros y Hy. apply H. right. exact Hy.
Qed.

Lemma filters_mask_columns (cols : list string) (r1 r2 : list Flagged) (Q : Query) :
  filters_mask (mkFrame cols r1) Q = filters_mask (mkFrame cols r2) Q.
Proof. reflexivity. Qed.

(** The mask of a query depends on the table only through its column
    labels and through whether its numeric column holds [pd.NA]. *)
Lemma query_mask_columns (float : string -> option Z) (b1 b2 : Frame Flagged) (Q : Query) :
  columns b1 = columns b2 ->
  existsb (fun r : Flagged => match CodeDate_num r with NumNA => true | _ => false end)
          (rows b1) =
  existsb (fun r : Flagged => match CodeDate_num r with NumNA => true | _ => false end)
          (rows b2) ->
  query_mask float b1 Q = query_mask float b2 Q.
Proof.
  destruct b1 as [c1 r1], b2 as [c2 r2]. cbn [columns rows]. intros <- He.
  unfold query_mask. rewrite (filters_mask_columns c1 r1 r2 Q).
  destruct (filters_mask (mkFrame c1 r2) Q) as [mask|e]; [|reflexivity].
  cbn [bind]. unfold date_step. cbn [rows]. rewrite He. reflexivity.
Qed.

(** X10. Evaluating a query on its own result changes nothing: for a
    table with one PVNumber column and no [pd.NA] in its numeric column
    (as every uploaded table is), if a query gives a result, the same
    query on that result gives the same result again. *)
Theorem evaluate_idempotent (float : string -> option Z) (base out : Frame Flagged)
  (Q : Query) (i : nat) :
  positions "PVNumber" (columns base) = [i] ->
  Forall (fun r : Flagged => CodeDate_num r <> NumNA) (rows base) ->
  evaluate float base Q = Ok out ->
  evaluate float out Q = Ok out.
Proof.
  intros Hpos Hna Hev.
  assert (Hm : exists mask, query_mask float base Q = Ok mask).
  { unfold evaluate in Hev. apply bind_ok in Hev. destruct Hev as [mask [Hm _]].
    exists mask. exact Hm. }
  destruct Hm as [mask Hm].
  rewrite (evaluate_rows float base Q mask i Hpos Hm) in Hev.
  injection Hev as Hout.
  set (kept := if keep_latest_only Q
               then drop_duplicates (flagged_key i)
                      (stable_sort (flagged_leb i) (filter mask (rows base)))
               else filter mask (rows base)) in Hout.
  assert (Hin : forall x, In x kept -> In x (rows base) /\ mask x = true).
  { intros x Hx. apply filter_In. unfold kept in Hx.
    destruct (keep_latest_only Q); [|exact Hx].
    eapply subsequence_In in Hx; [|apply drop_duplicates_subsequence].
    apply stable_sort_In in Hx. exact Hx. }
  assert (Hna' : Forall (fun r : Flagged => CodeDate_num r <> NumNA) kept).
  { rewrite Forall_forall in *. intros x Hx. apply Hna. apply Hin. exact Hx. }
  subst out.
  assert (Hm' : query_mask float (mkFrame (columns base) kept) Q = Ok mask).
  { rewrite <- Hm. apply query_mask_columns; [reflexivity|].
    cbn [rows]. rewrite !no_NumNA by assumption. reflexivity. }
  rewrite (evaluate_rows float (mkFrame (columns base) kept) Q mask i Hpos Hm').
  cbn [columns rows].
  rewrite (filter_true mask kept) by (intros x Hx; apply Hin; exact Hx).
  unfold kept. destruct (keep_latest_only Q); [|reflexivity].
  rewrite stable_sort_sorted_id.
  - rewrite drop_duplicates_twice. reflexivity.
  - eapply StronglySorted_subsequence; [apply drop_duplicates_subsequence|].
    apply flagged_rows_sorted.
Qed.

Lemma evaluate_idempotent_witness :
  exists out,
    evaluate Text.int_literal C1_base C1_query = Ok out /\
    evaluate Text.int_literal out C1_query = Ok out.
Proof.
  destruct (is_ok_inv (evaluate Text.int_literal C1_base C1_query)) as [out Hout];
    [vm_compute; reflexivity|].
  exists out. split; [exact Hout|].
  apply (evaluate_idempotent Text.int_literal C1_base out C1_query 0).
  - vm_compute. reflexivity.
  - destruct (load_base Text.int_literal C1_sheet C1_base) as [j [_ [_ H]]];
      [vm_compute; reflexivity | exact H].
  - exact Hout.
Defined.

(** ** Filters narrow the result *)

Lemma adv_step_cond (base : Frame Flagged) (f : string * Cond) (m m' : Mask) :
  adv_step base (Ok m) f = Ok m' ->
  exists c : Mask,
    (forall r, m' r = m r && c r) /\
    forall m2, exists m2',
      adv_step base (Ok m2) f = Ok m2' /\ forall r, m2' r = m2 r && c r.
Proof.
  unfold adv_step. cbn [bind].
  destruct (getitem base (fst f)) as [series|e]; [|discriminate]. cbn [bind].
  destruct (String.eqb (mode (snd f)) "contains").
  - destruct (str_contains (value (snd f)) false) as [hit|e]; [|discriminate].
    cbn [bind]. intros [= <-].
    exists (fun r => hit (astype_str (series r))). split; [reflexivity|].
    intros m2. eexists. split; reflexivity.
  - destruct (String.eqb (mode (snd f)) "equals").
    + intros [= <-].
      exists (fun r => String.eqb (Text.lower (astype_str (series r)))
                                  (Text.lower (value (snd f)))).
      split; [reflexivity|]. intros m2. eexists. split; reflexivity.
    + destruct (String.eqb (mode (snd f)) "in list").
      * intros [= <-].
        exists (fun r => isin (in_list_items (value (snd f))) (astype_str (series r))).
        split; [reflexivity|]. intros m2. eexists. split; reflexivity.
      * intros [= <-]. exists (fun _ => true).
        split; [intros r; rewrite andb_true_r; reflexivity|].
        intros m2. exists m2. split; [reflexivity|].
        intros r. rewrite andb_true_r. reflexivity.
Qed.

Lemma adv_fold_cond (base : Frame Flagged) (l : list (string * Cond)) (m m' : Mask) :
  fold_left (adv_step base) l (Ok m) = Ok m' ->
  exists c : Mask,
    (forall r, m' r = m r && c r) /\
    forall m2, exists m2',
      fold_left (adv_step base) l (Ok m2) = Ok m2' /\ forall r, m2' r = m2 r && c r.
Proof.
  revert m. induction l as [|f l IH]; intros m; cbn [fold_left].
  - intros [= <-]. exists (fun _ => true).
    split; [intros r; rewrite andb_true_r; reflexivity|].
    intros m2. exists m2. split; [reflexivity|].
    intros r. rewrite andb_true_r. reflexivity.
  - destruct (adv_step base (Ok m) f) as [m1|e] eqn:E1.
    + intros H. destruct (adv_step_cond base f m m1 E1) as [c1 [Hc1 Hall1]].
      destruct (IH m1 H) as [c2 [Hc2 Hall2]].
      exists (fun r => c1 r && c2 r). split.
      * intros r. rewrite Hc2, Hc1, andb_assoc. reflexivity.
      * intros m2. destruct (Hall1 m2) as [ma [Ea Ha]].
        destruct (Hall2 ma) as [mb [Eb Hb]].
        exists mb. rewrite Ea. split; [exact Eb|].
        intros r. rewrite Hb, Ha, andb_assoc. reflexivity.
    + rewrite fold_result_raise by reflexivity. discriminate.
Qed.

Lemma filter_narrower {A} (p q : A -> bool) (l : list A) :
  (forall x, p x = true -> q x = true) ->
  subsequence (filter p l) (filter q l).
Proof.
  intros H. induction l as [|x l IH]; cbn [filter]; [constructor|].
  destruct (p x) eqn:Ep.
  - rewrite (H x Ep). apply subseq_keep. exact IH.
  - destruct (q x); [apply subseq_skip|]; exact IH.
Qed.

Lemma date_step_narrower (float : string -> option Z) (base : Frame Flagged)
  (a b : string) (m m' : Mask) (r : Flagged) :
  (m' r = true -> m r = true) ->
  date_step float base a b m' r = true -> date_step float base a b m r = true.
Proof.
  intros H. unfold date_step.
  destruct (Text.nonempty a && Text.nonempty b); [|exact H].
  destruct (float a); [|exact H]. destruct (float b); [|exact H].
  destruct (existsb _ (rows base)); [exact H|].
  rewrite !andb_true_iff. intros [H1 H2]. split; [apply H; exact H1 | exact H2].
Qed.

Lemma filters_mask_narrower (base : Frame Flagged) (Q : Query)
  (l1 l2 : list (string * Cond)) (f : string * Cond) (m' : Mask) :
  filters_mask base (with_adv_filters Q (l1 ++ f :: l2)) = Ok m' ->
  exists m,
    filters_mask base (with_adv_filters Q (l1 ++ l2)) = Ok m /\
    forall r, m' r = true -> m r = true.
Proof.
  unfold filters_mask. cbv zeta.
  cbn [query basic_filters adv_filters with_adv_filters].
  intros H. apply bind_ok in H. destruct H as [m0 [H0 H]].
  apply bind_ok in H. destruct H as [m1 [H1 H]].
  rewrite H0. cbn [bind]. rewrite H1. cbn [bind].
  rewrite fold_left_app in *. cbn [fold_left] in H.
  destruct (fold_left (adv_step base) l1 (Ok m1)) as [ma|e].
  - destruct (adv_step base (Ok ma) f) as [mb|e] eqn:Ef.
    + destruct (adv_step_cond base f ma mb Ef) as [cf [Hcf _]].
      destruct (adv_fold_cond base l2 mb m' H) as [c2 [Hc2 Hall]].
      destruct (Hall ma) as [m [Em Hm]]. exists m. split; [exact Em|].
      intros r. rewrite Hc2, Hm, Hcf, !andb_true_iff. intros [[Ha _] Hb]. auto.
    + rewrite fold_result_raise in H by reflexivity. discriminate H.
  - change (adv_step base (Raise e) f) with (@Raise Mask e) in H.
    rewrite fold_result_raise in H by reflexivity. discriminate H.
Qed.

(** X11. Without keep-latest, an advanced filter only narrows the result:
    if a query with some advanced filter evaluates, the query without that
    filter evaluates too, and the rows of the first result are rows of the
    second, in the same order. *)
Theorem adv_filter_narrows (float : string -> option Z) (base out' : Frame Flagged)
  (Q : Query) (l1 l2 : list (string * Cond)) (f : string * Cond) :
  keep_latest_only Q = false ->
  evaluate float base (with_adv_filters Q (l1 ++ f :: l2)) = Ok out' ->
  exists out,
    evaluate float base (with_adv_filters Q (l1 ++ l2)) = Ok out /\
    subsequence (rows out') (rows out).
Proof.
  intros Hk Hev. unfold evaluate in Hev. apply bind_ok in Hev.
  destruct Hev as [mask' [Hq' Hev]].
  cbn [keep_latest_only with_adv_filters] in Hev. rewrite Hk in Hev.
  injection Hev as <-.
  unfold query_mask in Hq'. apply bind_ok in Hq'. destruct Hq' as [m' [Hf' Hq']].
  cbn [min_str max_str with_adv_filters] in Hq'. injection Hq' as <-.
  destruct (filters_mask_narrower base Q l1 l2 f m' Hf') as [m [Hf Hm]].
  unfold evaluate, query_mask. rewrite Hf. cbn [bind].
  cbn [keep_latest_only min_str max_str with_adv_filters]. rewrite Hk.
  eexists. split; [reflexivity|]. cbn [rows].
  apply filter_narrower. intros r. apply date_step_narrower. apply Hm.
Qed.

Lemma adv_filter_narrows_witness :
  exists out,
    evaluate Text.int_literal base_shapes
      (with_adv_filters (mkQuery EmptyString [] [] EmptyString EmptyString false)
         ([] ++ [])) = Ok out.
Proof.
  destruct (is_ok_inv (evaluate Text.int_literal base_shapes
              (with_adv_filters (mkQuery EmptyString [] [] EmptyString EmptyString false)
                 ([] ++ ("Shape", mkCond "equals" "round") :: [])))) as [out' Hout'];
    [vm_compute; reflexivity|].
  destruct (adv_filter_narrows Text.int_literal base_shapes out'
              (mkQuery EmptyString [] [] EmptyString EmptyString false)
              [] [] ("Shape", mkCond "equals" "round") eq_refl Hout') as [out [Hout _]].
  exists out. exact Hout.
Defined.

(** ** The operand of an in-list filter *)

Lemma in_list_items_blank (val : string) :
  (forall v, In v (Text.split ";"%char val) -> Text.strip v = EmptyString) ->
  in_list_items val = [].
Proof.
  unfold in_list_items. induction (Text.split ";"%char val) as [|v l IH]; intros H;
    [reflexivity|].
  cbn [filter]. rewrite (H v) by (left; reflexivity). cbn [Text.nonempty].
  apply IH. intros w Hw. apply H. right. exact Hw.
Qed.

Lemma adv_fold_member (base : Frame Flagged) (l : list (string * Cond)) (m m' : Mask)
  (f : string * Cond) :
  fold_left (adv_step base) l (Ok m) = Ok m' -> In f l ->
  exists mf mf',
    adv_step base (Ok mf) f = Ok mf' /\ forall r, m' r = true -> mf' r = true.
Proof.
  revert m. induction l as [|g l IH]; intros m H Hin; [contradiction|].
  cbn [fold_left] in H.
  destruct (adv_step base (Ok m) g) as [m1|e] eqn:Eg.
  - destruct Hin as [->|Hin].
    + exists m, m1. split; [exact Eg|].
      destruct (adv_fold_cond base l m1 m' H) as [c [Hc _]].
      intros r. rewrite Hc, andb_true_iff. intros [H1 _]. exact H1.
    + apply (IH m1); assumption.
  - rewrite fold_result_raise in H by reflexivity. discriminate H.
Qed.

Lemma date_step_below (float : string -> option Z) (base : Frame Flagged)
  (a b : string) (m : Mask) (r : Flagged) :
  date_step float base a b m r = true -> m r = true.
Proof.
  unfold date_step.
  destruct (Text.nonempty a && Text.nonempty b); [|auto].
  destruct (float a); [|auto]. destruct (float b); [|auto].
  destruct (existsb _ (rows base)); [auto|].
  rewrite andb_true_iff. intros [H _]. exact H.
Qed.

Lemma query_mask_adv (float : string -> option Z) (base : Frame Flagged) (Q : Query)
  (mask : Mask) :
  query_mask float base Q = Ok mask ->
  exists m1 m,
    fold_left (adv_step base) (adv_filters Q) (Ok m1) = Ok m /\
    forall r, mask r = true -> m r = true.
Proof.
  unfold query_mask. intros H. apply bind_ok in H. destruct H as [m [Hf H]].
  injection H as <-. unfold filters_mask in Hf. cbv zeta in Hf.
  apply bind_ok in Hf. destruct Hf as [m0 [_ Hf]].
  apply bind_ok in Hf. destruct Hf as [m1 [_ Hf]].
  exists m1, m. split; [exact Hf|]. intros r. apply date_step_below.
Qed.

Lemma evaluate_members (float : string -> option Z) (base out : Frame Flagged)
  (Q : Query) :
  evaluate float base Q = Ok out ->
  exists mask,
    query_mask float base Q = Ok mask /\
    forall x, In x (rows out) -> In x (rows base) /\ mask x = true.
Proof.
  unfold evaluate. intros H. apply bind_ok in H. destruct H as [mask [Hm H]].
  exists mask. split; [exact Hm|]. intros x Hx. apply filter_In.
  destruct (keep_latest_only Q).
  - destruct (positions "PVNumber" (columns base)) as [|i [|i' l]]; try discriminate H.
    injection H as <-. cbn [rows] in Hx.
    eapply subsequence_In in Hx; [|apply drop_duplicates_subsequence].
    apply stable_sort_In in Hx. exact Hx.
  - injection H as <-. exact Hx.
Qed.

(** X12. An in-list filter whose operand holds only separators and blanks
    selects nothing: whatever else the query asks, its result has no
    rows. *)
Theorem in_list_blank (float : string -> option Z) (base out : Frame Flagged)
  (Q : Query) (col val : string) :
  In (col, mkCond "in list" val) (adv_filters Q) ->
  (forall v, In v (Text.split ";"%char val) -> Text.strip v = EmptyString) ->
  evaluate float base Q = Ok out ->
  rows out = [].
Proof.
  intros Hin Hblank Hev.
  destruct (evaluate_members float base out Q Hev) as [mask [Hm Hrows]].
  destruct (query_mask_adv float base Q mask Hm) as [m1 [m [Hfold Hle]]].
  destruct (adv_fold_member base _ m1 m _ Hfold Hin) as [mf [mf' [Hstep Hmf]]].
  assert (Hnone : forall r, mask r = false).
  { intros r. destruct (mask r) eqn:E; [|reflexivity].
    apply Hle, Hmf in E. unfold adv_step in Hstep. cbn [bind fst snd mode value] in Hstep.
    destruct (getitem base col) as [series|e]; [|discriminate Hstep].
    cbn [bind String.eqb Ascii.eqb Bool.eqb] in Hstep. injection Hstep as <-.
    rewrite (in_list_items_blank val Hblank), andb_false_r in E. discriminate E. }
  destruct (rows out) as [|x l]; [reflexivity|].
  destruct (Hrows x (or_introl eq_refl)) as [_ Hx]. rewrite Hnone in Hx. discriminate Hx.
Qed.

Lemma in_list_blank_witness :
  exists out,
    evaluate Text.int_literal base_shapes
      (mkQuery EmptyString [] [("Shape", mkCond "in list" " ; ;")]
               EmptyString EmptyString false) = Ok out /\
    rows out = [].
Proof.
  destruct (is_ok_inv (evaluate Text.int_literal base_shapes
              (mkQuery EmptyString [] [("Shape", mkCond "in list" " ; ;")]
                       EmptyString EmptyString false))) as [out Hout];
    [vm_compute; reflexivity|].
  exists out. split; [exact Hout|].
  apply (in_list_blank Text.int_literal base_shapes out
           (mkQuery EmptyString [] [("Shape", mkCond "in list" " ; ;")]
                    EmptyString EmptyString false) "Shape" " ; ;").
  - left. reflexivity.
  - intros v Hv. vm_compute in Hv.
    repeat (destruct Hv as [<-|Hv]; [reflexivity|]). contradiction.
  - exact Hout.
Defined.

(** X13. An advanced "contains" filter whose operand has no character
    that is special in a regular expression keeps exactly the rows whose
    rendered cell holds the operand as a substring, letter case aside. *)
Theorem contains_plain_text (base : Frame Flagged) (col val : string)
  (series : Flagged -> cell) (mask : Mask) :
  getitem base col = Ok series ->
  has_special val = false ->
  exists m,
    adv_step base (Ok mask) (col, mkCond "contains" val) = Ok m /\
    forall r, m r = mask r
                    && Text.is_infix (Text.lower val) (Text.lower (astype_str (series r))).
Proof.
  intros Hg Hs. destruct (str_contains_literal val Hs) as [hit [Hhit Hspec]].
  unfold adv_step. cbn [bind fst snd mode value]. rewrite Hg. cbn [bind].
  cbn [String.eqb Ascii.eqb Bool.eqb]. rewrite Hhit. cbn [bind].
  eexists. split; [reflexivity|]. intros r. cbv beta. rewrite Hspec. reflexivity.
Qed.

Lemma contains_plain_text_witness :
  exists series m,
    getitem base_shapes "Description" = Ok series /\
    adv_step base_shapes (Ok (fun _ => true)) ("Description", mkCond "contains" "Chip")
      = Ok m /\
    forall r, m r = true
                    && Text.is_infix (Text.lower "Chip")
                         (Text.lower (astype_str (series r))).
Proof.
  destruct (is_ok_inv (getitem base_shapes "Description")) as [series Hs];
    [vm_compute; reflexivity|].
  destruct (contains_plain_text base_shapes "Description" "Chip" series (fun _ => true)
              Hs eq_refl) as [m [Hm Hspec]].
  exists series, m. split; [exact Hs|]. split; [exact Hm | exact Hspec].
Defined.

(** ** The global search on plain text *)

Lemma match_here_exact (pat s : string) :
  match_here false (literal_atoms pat) s = Text.is_prefix pat s.
Proof.
  revert s. induction pat as [|c pat IH]; intros [|x s]; simpl; try reflexivity.
  rewrite IH. reflexivity.
Qed.

Lemma str_contains_exact (q : string) :
  has_special q = false ->
  exists hit,
    str_contains q true = Ok hit /\ forall s, hit s = Text.is_infix q s.
Proof.
  intros H. unfold str_contains, re_compile. rewrite (parse_pattern_literal _ H).
  cbn [bind negb]. eexists. split; [reflexivity|].
  induction s as [|x s IH]; cbn [re_search Text.is_infix];
    rewrite match_here_exact; [reflexivity|].
  rewrite IH. reflexivity.
Qed.

Lemma existsb_same {A} (f g : A -> bool) (l : list A) :
  (forall x, f x = g x) -> existsb f l = existsb g l.
Proof.
  intros H. induction l as [|x l IH]; [reflexivity|].
  cbn [existsb]. rewrite H, IH. reflexivity.
Qed.

Lemma global_mask_unfold (base : Frame Flagged) (q : string) :
  global_mask base q =
  fold_left (global_step base q) REQUIRED_COLUMNS (Ok (fun _ => false)).
Proof. reflexivity. Qed.

Lemma global_step_ok (base : Frame Flagged) (q col : string) (hit : string -> bool)
  (series : Flagged -> cell) (m0 : Mask) :
  str_contains q true = Ok hit -> getitem base col = Ok series ->
  global_step base q (Ok m0) col =
  Ok (fun r => m0 r || hit (Text.lower (astype_str (series r)))).
Proof.
  intros Hhit Hg. unfold global_step. cbn [bind]. rewrite Hg. cbn [bind].
  rewrite Hhit. reflexivity.
Qed.

Lemma global_fold (base : Frame Flagged) (q : string) (hit : string -> bool)
  (L : list string) (idx : list nat) (m0 : Mask) :
  str_contains q true = Ok hit ->
  Forall2 (fun col i => getitem base col = Ok (fun r : Flagged => cell_at i r)) L idx ->
  exists m,
    fold_left (global_step base q) L (Ok m0) = Ok m /\
    forall r, m r = m0 r
                    || existsb (fun j => hit (Text.lower (astype_str (cell_at j r)))) idx.
Proof.
  intros Hhit HF. revert m0. induction HF as [|col i L idx Hg _ IH]; intros m0.
  - exists m0. split; [reflexivity|]. intros r. cbn [existsb]. rewrite orb_false_r.
    reflexivity.
  - cbn [fold_left]. rewrite (global_step_ok base q col hit _ m0 Hhit Hg).
    destruct (IH (fun r => m0 r || hit (Text.lower (astype_str (cell_at i r)))))
      as [m [Hm Hspec]].
    exists m. split; [exact Hm|]. intros r. rewrite Hspec. cbn [existsb].
    rewrite orb_assoc. reflexivity.
Qed.

Lemma required_getitem (base : Frame Flagged) :
  columns base = REQUIRED_COLUMNS ->
  Forall2 (fun col i => getitem base col = Ok (fun r : Flagged => cell_at i r))
          REQUIRED_COLUMNS (seq 0 15).
Proof.
  destruct base as [cols rs]. cbn [columns]. intros ->.
  unfold REQUIRED_COLUMNS. cbn [seq].
  repeat (apply Forall2_cons; [reflexivity|]). apply Forall2_nil.
Qed.

(** X14. On a table with the required columns, the global search for a
    text without regex-special characters keeps exactly the rows in which
    the text occurs in the lower-cased rendering of one of the fifteen
    required cells; the numeric code date and the latest flag are not
    searched. *)
Theorem global_search_plain (base : Frame Flagged) (q : string) :
  columns base = REQUIRED_COLUMNS ->
  has_special q = false ->
  exists m,
    global_mask base q = Ok m /\
    forall r : Flagged,
      m r = existsb (fun j => Text.is_infix q (Text.lower (astype_str (cell_at j r))))
                    (seq 0 15).
Proof.
  intros Hc Hs. destruct (str_contains_exact q Hs) as [hit [Hhit Hspec]].
  destruct (global_fold base q hit REQUIRED_COLUMNS (seq 0 15) (fun _ => false) Hhit
              (required_getitem base Hc)) as [m [Hm Hm']].
  exists m. split; [rewrite global_mask_unfold; exact Hm|].
  intros r. rewrite Hm'. cbn [orb].
  apply existsb_same. intros j. apply Hspec.
Qed.

Lemma global_search_plain_witness :
  columns base_shapes = REQUIRED_COLUMNS /\
  exists m,
    global_mask base_shapes "chip" = Ok m /\
    forall r : Flagged,
      m r = existsb (fun j => Text.is_infix "chip" (Text.lower (astype_str (cell_at j r))))
                    (seq 0 15).
Proof.
  assert (H : columns base_shapes = REQUIRED_COLUMNS) by (vm_compute; reflexivity).
  split; [exact H|]. exact (global_search_plain base_shapes "chip" H eq_refl).
Defined.

(** ** Queries that cannot fail *)

Lemma getitem_unique (base : Frame Flagged) (col : string) :
  NoDup (columns base) -> In col (columns base) ->
  exists series, getitem base col = Ok series.
Proof.
  intros Hnd Hin. unfold getitem, positions.
  pose proof (positions_from_eq_refl 0 col (columns base) Hnd Hin) as Hl.
  destruct (positions_from 0 col (columns base)) as [|i [|i' l]];
    [discriminate Hl | eexists; reflexivity | discriminate Hl].
Qed.

Lemma basic_fold_ok (base : Frame Flagged) (l : list (string * list string)) (m : Mask) :
  (forall f, In f l -> exists series, getitem base (fst f) = Ok series) ->
  exists m', fold_left (basic_step base) l (Ok m) = Ok m'.
Proof.
  revert m. induction l as [|f l IH]; intros m H; [exists m; reflexivity|].
  cbn [fold_left].
  assert (Hl : forall g, In g l -> exists series, getitem base (fst g) = Ok series)
    by (intros g Hg; apply H; right; exact Hg).
  unfold basic_step at 2. cbn [bind].
  destruct (snd f) as [|s sel]; [apply IH; exact Hl|].
  destruct (H f (or_introl eq_refl)) as [series Hs]. rewrite Hs. cbn [bind].
  apply IH. exact Hl.
Qed.

Lemma adv_fold_ok (base : Frame Flagged) (l : list (string * Cond)) (m : Mask) :
  (forall f, In f l -> exists series, getitem base (fst f) = Ok series) ->
  (forall f, In f l -> mode (snd f) = "contains" -> has_special (value (snd f)) = false) ->
  exists m', fold_left (adv_step base) l (Ok m) = Ok m'.
Proof.
  revert m. induction l as [|f l IH]; intros m H Hv; [exists m; reflexivity|].
  cbn [fold_left].
  assert (Hl : forall g, In g l -> exists series, getitem base (fst g) = Ok series)
    by (intros g Hg; apply H; right; exact Hg).
  assert (Hvl : forall g, In g l -> mode (snd g) = "contains" ->
                          has_special (value (snd g)) = false)
    by (intros g Hg; apply Hv; right; exact Hg).
  unfold adv_step at 2. cbn [bind].
  destruct (H f (or_introl eq_refl)) as [series Hs]. rewrite Hs. cbn [bind].
  destruct (String.eqb_spec (mode (snd f)) "contains") as [E|_].
  - destruct (str_contains_literal _ (Hv f (or_introl eq_refl) E)) as [hit [Hhit _]].
    rewrite Hhit. cbn [bind]. apply IH; assumption.
  - destruct (String.eqb (mode (snd f)) "equals"); [apply IH; assumption|].
    destruct (String.eqb (mode (snd f)) "in list"); apply IH; assumption.
Qed.

Lemma filters_mask_ok (base : Frame Flagged) (Q : Query) :
  columns base = REQUIRED_COLUMNS ->
  (forall f, In f (basic_filters Q) -> In (fst f) REQUIRED_COLUMNS) ->
  (forall f, In f (adv_filters Q) -> In (fst f) REQUIRED_COLUMNS) ->
  has_special (Text.lower (Text.strip (query Q))) = false ->
  (forall f, In f (adv_filters Q) -> mode (snd f) = "contains" ->
             has_special (value (snd f)) = false) ->
  exists m, filters_mask base Q = Ok m.
Proof.
  intros Hc Hb Ha Hq Hv.
  assert (Hget : forall col, In col REQUIRED_COLUMNS ->
                             exists series, getitem base col = Ok series).
  { intros col Hin. apply getitem_unique; rewrite Hc;
      [apply REQUIRED_COLUMNS_NoDup | exact Hin]. }
  unfold filters_mask. cbv zeta.
  destruct (Text.nonempty (Text.lower (Text.strip (query Q)))).
  - destruct (str_contains_exact _ Hq) as [hit [Hhit _]].
    destruct (global_fold base _ hit REQUIRED_COLUMNS (seq 0 15) (fun _ => false) Hhit
                (required_getitem base Hc)) as [mm [Hmm _]].
    rewrite global_mask_unfold. unfold Mask in *. rewrite Hmm. cbn [bind].
    match goal with
    | |- context [fold_left (basic_step base) ?l (Ok ?m)] =>
        destruct (basic_fold_ok base l m) as [m1 H1];
          [intros f Hf; apply Hget, Hb, Hf | unfold Mask in *; rewrite H1]
    end.
    cbn [bind]. apply adv_fold_ok; [intros f Hf; apply Hget, Ha, Hf | exact Hv].
  - cbn [bind].
    match goal with
    | |- context [fold_left (basic_step base) ?l (Ok ?m)] =>
        destruct (basic_fold_ok base l m) as [m1 H1];
          [intros f Hf; apply Hget, Hb, Hf | unfold Mask in *; rewrite H1]
    end.
    cbn [bind]. apply adv_fold_ok; [intros f Hf; apply Hget, Ha, Hf | exact Hv].
Qed.

Lemma evaluate_ok (float : string -> option Z) (base : Frame Flagged) (Q : Query) :
  columns base = REQUIRED_COLUMNS ->
  (forall f, In f (basic_filters Q) -> In (fst f) REQUIRED_COLUMNS) ->
  (forall f, In f (adv_filters Q) -> In (fst f) REQUIRED_COLUMNS) ->
  has_special (Text.lower (Text.strip (query Q))) = false ->
  (forall f, In f (adv_filters Q) -> mode (snd f) = "contains" ->
             has_special (value (snd f)) = false) ->
  exists out, evaluate float base Q = Ok out /\ columns out = REQUIRED_COLUMNS.
Proof.
  intros Hc Hb Ha Hq Hv.
  destruct (filters_mask_ok base Q Hc Hb Ha Hq Hv) as [m Hm].
  destruct positions_required as [_ Hpv].
  unfold evaluate, query_mask. rewrite Hm. cbn [bind]. rewrite Hc, Hpv.
  destruct (keep_latest_only Q); eexists; split; reflexivity.
Qed.

(** X15. A query over the required columns whose search text and
    "contains" operands have no regex-special characters never fails on a
    table with the required columns: it gives a result, with the same
    columns, whatever the basic selections, the operators, the bounds of
    the date range and the keep-latest switch are. *)
Theorem evaluate_succeeds (float : string -> option Z) (base : Frame Flagged) (Q : Query) :
  columns base = REQUIRED_COLUMNS ->
  (forall f, In f (basic_filters Q) -> In (fst f) REQUIRED_COLUMNS) ->
  (forall f, In f (adv_filters Q) -> In (fst f) REQUIRED_COLUMNS) ->
  has_special (Text.lower (Text.strip (query Q))) = false ->
  (forall f, In f (adv_filters Q) -> mode (snd f) = "contains" ->
             has_special (value (snd f)) = false) ->
  exists out, evaluate float base Q = Ok out /\ columns out = REQUIRED_COLUMNS.
Proof. apply evaluate_ok. Qed.

Lemma evaluate_succeeds_witness :
  exists out,
    evaluate Text.int_literal base_shapes
      (mkQuery "Chip" [("Shape", ["Round"])] [("Size", mkCond "contains" "oz")]
               "1" "x" true) = Ok out /\
    columns out = REQUIRED_COLUMNS.
Proof.
  apply (evaluate_succeeds Text.int_literal base_shapes
           (mkQuery "Chip" [("Shape", ["Round"])] [("Size", mkCond "contains" "oz")]
                    "1" "x" true)).
  - vm_compute. reflexivity.
  - intros f [<-|[]]. apply has_column_In. vm_compute. reflexivity.
  - intros f [<-|[]]. apply has_column_In. vm_compute. reflexivity.
  - vm_compute. reflexivity.
  - intros f [<-|[]] _. vm_compute. reflexivity.
Defined.

(** ** The options of a basic filter *)

Lemma unique_from_In (seen l : list string) (x : string) :
  In x (unique_from seen l) <-> In x l /\ ~ In x seen.
Proof.
  revert seen. induction l as [|y l IH]; intros seen; cbn [unique_from In].
  - tauto.
  - destruct (isin seen y) eqn:E.
    + apply isin_In in E. rewrite IH. split.
      * intros [H1 H2]. auto.
      * intros [[->|H1] H2]; [contradiction | auto].
    + assert (Hy : ~ In y seen) by (intros H; apply isin_In in H; congruence).
      cbn [In]. rewrite IH. cbn [In]. split.
      * intros [<-|[H1 H2]]; [auto|]. split; [auto|]. intros H. apply H2. auto.
      * intros [[->|H1] H2]; [auto|].
        destruct (string_dec y x) as [->|Hne]; [auto|].
        right. split; [exact H1|]. intros [H|H]; [contradiction | contradiction].
Qed.

Lemma unique_from_NoDup (seen l : list string) : NoDup (unique_from seen l).
Proof.
  revert seen. induction l as [|y l IH]; intros seen; cbn [unique_from]; [constructor|].
  destruct (isin seen y); [apply IH|].
  constructor; [|apply IH].
  intros H. apply unique_from_In in H. destruct H as [_ H]. apply H. left. reflexivity.
Qed.

Lemma str_leb_total (a b : string) : str_leb a b = true \/ str_leb b a = true.
Proof.
  unfold str_leb. rewrite (String.compare_antisym a b).
  destruct (String.compare b a); simpl; auto.
Qed.

Lemma str_leb_trans (a b c : string) :
  str_leb a b = true -> str_leb b c = true -> str_leb a c = true.
Proof.
  unfold str_leb.
  destruct (String.compare a b) eqn:Eab; [| |discriminate].
  - apply String.compare_eq_iff in Eab. subst b. auto.
  - destruct (String.compare b c) eqn:Ebc; [| |discriminate].
    + apply String.compare_eq_iff in Ebc. subst c. rewrite Eab. reflexivity.
    + rewrite (string_compare_lt_trans a b c Eab Ebc). reflexivity.
Qed.

Lemma sorted_strict (l : list string) :
  StronglySorted (fun a b => str_leb a b = true) l -> NoDup l ->
  StronglySorted (fun a b => String.compare a b = Lt) l.
Proof.
  induction 1 as [|x l Hs IH Hx]; intros Hnd; [constructor|].
  inversion Hnd as [|? ? Hnx Hnd']; subst. constructor; [apply IH; exact Hnd'|].
  rewrite Forall_forall in *. intros y Hy. specialize (Hx y Hy). unfold str_leb in Hx.
  destruct (String.compare x y) eqn:E; [|reflexivity|discriminate Hx].
  apply String.compare_eq_iff in E. subst y. contradiction.
Qed.

Lemma getitem_has_column (base : Frame Flagged) (col : string)
  (series : Flagged -> cell) :
  getitem base col = Ok series -> has_column col (columns base) = true.
Proof.
  unfold getitem. intros H.
  destruct (has_column col (columns base)) eqn:E; [reflexivity|].
  assert (Hn : ~ In col (columns base)).
  { intros Hin. apply has_column_In in Hin. congruence. }
  unfold positions in H. rewrite (positions_from_none 0 col _ Hn) in H. discriminate H.
Qed.

(** X16. The options offered for a basic filter are exactly the texts of
    the cells of the column that are not missing, each once and in
    strictly ascending order; a column that is not in the table offers no
    option. *)
Theorem options_spec (base : Frame Flagged) (col : string) :
  (forall series, getitem base col = Ok series ->
     exists opts,
       options base col = Ok opts /\
       (forall s, In s opts <-> exists r, In r (rows base) /\ series r = Str s) /\
       StronglySorted (fun a b => String.compare a b = Lt) opts) /\
  (has_column col (columns base) = false -> options base col = Ok []).
Proof.
  split.
  - intros series Hg. unfold options.
    rewrite (getitem_has_column base col series Hg), Hg. cbn [bind].
    eexists. split; [reflexivity|].
    set (texts := map astype_str
                    (filter (fun c => negb (isna c)) (map series (rows base)))).
    assert (Hin : forall s, In s (stable_sort str_leb (unique texts)) <->
                            exists r, In r (rows base) /\ series r = Str s).
    { intros s. rewrite stable_sort_In. unfold unique. rewrite unique_from_In.
      unfold texts. rewrite in_map_iff. split.
      - intros [[c [Hc Hf]] _]. apply filter_In in Hf. destruct Hf as [Hm Hna].
        apply in_map_iff in Hm. destruct Hm as [r [Hr Hin]].
        exists r. split; [exact Hin|]. rewrite Hr.
        destruct c; try discriminate Hna. simpl in Hc. congruence.
      - intros [r [Hin Hr]]. split; [|intros []].
        exists (Str s). split; [reflexivity|]. apply filter_In. split; [|reflexivity].
        rewrite <- Hr. apply in_map. exact Hin. }
    split; [exact Hin|].
    apply sorted_strict.
    + apply stable_sort_sorted; [apply str_leb_total | apply str_leb_trans].
    + eapply Permutation_NoDup; [apply Permutation_sym, stable_sort_perm|].
      apply unique_from_NoDup.
  - intros H. unfold options. rewrite H. reflexivity.
Qed.

(** ** The default date range *)







Lemma options_spec_witness :
  exists series opts,
    getitem base_shapes "Shape" = Ok series /\
    options base_shapes "Shape" = Ok opts /\
    (forall s, In s opts <-> exists r, In r (rows base_shapes) /\ series r = Str s) /\
    StronglySorted (fun a b => String.compare a b = Lt) opts.
Proof.
  destruct (is_ok_inv (getitem base_shapes "Shape")) as [series Hs];
    [vm_compute; reflexivity|].
  destruct (proj1 (options_spec base_shapes "Shape") series Hs) as [opts H].
  exists series, opts. split; [exact Hs | exact H].
Defined.

(** ** The order of the uploaded table *)

Lemma StronglySorted_impl {A} (R S : A -> A -> Prop) (l : list A) :
  (forall a b, R a b -> S a b) -> StronglySorted R l -> StronglySorted S l.
Proof.
  intros H. induction 1 as [|x l Hs IH Hx]; constructor; [exact IH|].
  rewrite Forall_forall in *. intros y Hy. apply H, Hx, Hy.
Qed.

Lemma flagged_leb_order (i : nat) (a b : Flagged) :
  flagged_leb i a b = true -> upload_order i a b.
Proof.
  unfold flagged_leb, sort_leb, upload_order.
  destruct (key_compare (cell_at i a) (cell_at i b)); [|auto|discriminate].
  apply num_desc_leb_le.
Qed.

(** X18. The table built at upload is ordered: of any two of its rows,
    the earlier one has the smaller PVNumber, rows without a PVNumber come
    last, and rows of one PVNumber are in descending order of their code
    date with the undated rows last. *)
Theorem load_order (parse : string -> option Z) (raw : DataFrame)
  (base : Frame Flagged) :
  load parse raw = Ok base ->
  exists i,
    positions "PVNumber" (columns base) = [i] /\
    StronglySorted (upload_order i) (rows base) /\
    forall l1 l2 (a b : Flagged), rows base = l1 ++ a :: l2 -> In b l2 ->
      (isna (cell_at i a) = true -> isna (cell_at i b) = true) /\
      (cell_at i a = cell_at i b -> num_le (CodeDate_num b) (CodeDate_num a)).
Proof.
  intros Hload. destruct (load_base parse raw base Hload) as [i [Hpos [Hs _]]].
  exists i. split; [exact Hpos|].
  assert (Hso : StronglySorted (upload_order i) (rows base)).
  { eapply StronglySorted_impl; [|exact Hs]. intros a b. apply flagged_leb_order. }
  split; [exact Hso|].
  intros l1 l2 a b Hrows Hb. rewrite Hrows in Hso.
  apply StronglySorted_after in Hso. rewrite Forall_forall in Hso.
  specialize (Hso b Hb). unfold upload_order in Hso. split.
  - intros Ha. destruct (cell_at i a); [| |discriminate Ha];
      destruct (cell_at i b); simpl in Hso; try reflexivity; contradiction.
  - intros E. rewrite E, key_compare_eq in Hso. exact Hso.
Qed.

Lemma load_order_witness :
  exists i,
    positions "PVNumber" (columns C1_base) = [i] /\
    StronglySorted (upload_order i) (rows C1_base).
Proof.
  destruct (load_order Text.int_literal C1_sheet C1_base) as [i [Hpos [Hs _]]];
    [vm_compute; reflexivity|].
  exists i. split; assumption.
Defined.

(** ** The queries of the page *)

Lemma basic_cols_required (col : string) :
  In col basic_cols -> In col REQUIRED_COLUMNS.
Proof.
  assert (H : forallb (fun c => has_column c REQUIRED_COLUMNS) basic_cols = true)
    by (vm_compute; reflexivity).
  rewrite forallb_forall in H. intros Hin. apply has_column_In. apply H. exact Hin.
Qed.

Lemma new_af_In (selectbox text_input : string -> string) (f : string * Cond) :
  In f (new_af selectbox text_input) ->
  In (fst f) REQUIRED_COLUMNS /\
  mode (snd f) = selectbox (fst f) /\ value (snd f) = text_input (fst f) /\
  mode (snd f) <> "(none)" /\ value (snd f) <> EmptyString.
Proof.
  unfold new_af. rewrite in_flat_map. intros [col [Hcol Hf]].
  destruct (String.eqb_spec (selectbox col) "(none)") as [E|E]; [contradiction|].
  destruct (text_input col) eqn:Ev; [contradiction|].
  destruct Hf as [<-|[]]. cbn [fst snd mode value]. rewrite Ev.
  repeat split; [exact Hcol | exact E | discriminate].
Qed.

(** X19. Every query the page builds from plain text runs on every
    upload: for a sheet whose headers are pairwise distinct once stripped,
    the upload gives a table, and the query assembled from the widgets
    (search text, multiselects of the basic columns, operator and operand
    of each required column, bounds, keep-latest) evaluates on it,
    provided the search text and the operands of "contains" hold no
    regex-special character. *)
Theorem page_query_succeeds (parse float : string -> option Z) (raw : DataFrame)
  (text : string) (multiselect : string -> list string)
  (selectbox text_input : string -> string) (lo hi : string) (keep : bool) :
  NoDup (map Text.strip (columns raw)) ->
  has_special (Text.lower (Text.strip text)) = false ->
  (forall col, selectbox col = "contains" -> has_special (text_input col) = false) ->
  exists base out,
    load parse raw = Ok base /\
    evaluate float base (page_query text multiselect selectbox text_input lo hi keep)
    = Ok out /\
    columns out = REQUIRED_COLUMNS.
Proof.
  intros Hnd Hq Hv. exists (upload_table parse (normalize raw)).
  destruct (evaluate_ok float (upload_table parse (normalize raw))
              (page_query text multiselect selectbox text_input lo hi keep))
    as [out [Hout Hcols]].
  - reflexivity.
  - intros f Hf. cbn [page_query basic_filters] in Hf. unfold new_bf in Hf.
    apply in_map_iff in Hf. destruct Hf as [col [<- Hcol]].
    apply basic_cols_required. exact Hcol.
  - intros f Hf. apply (new_af_In selectbox text_input f Hf).
  - exact Hq.
  - intros f Hf Hm. destruct (new_af_In selectbox text_input f Hf) as [_ [Hmode [Hval _]]].
    rewrite Hval. apply Hv. rewrite <- Hmode. exact Hm.
  - exists out. split; [apply load_canonical; exact Hnd|]. split; assumption.
Qed.

Lemma page_query_succeeds_witness :
  exists base out,
    load Text.int_literal sheet_shapes = Ok base /\
    evaluate Text.int_literal base
      (page_query "chip" (fun col => if String.eqb col "Shape" then ["Round"] else [])
         (fun col => if String.eqb col "Size" then "contains" else "(none)")
         (fun col => if String.eqb col "Size" then "oz" else EmptyString)
         "20230101" "20241231" true)
    = Ok out /\
    columns out = REQUIRED_COLUMNS.
Proof.
  apply (page_query_succeeds Text.int_literal Text.int_literal sheet_shapes).
  - cbn. repeat (constructor; [simpl; intros H; repeat (destruct H as [H|H]; [discriminate H|]); exact H|]).
    constructor.
  - reflexivity.
  - intros col. destruct (String.eqb_spec col "Size") as [->|_]; [reflexivity|discriminate].
Defined.

(** ** Saved defaults *)

Lemma dict_get_del_same {V} (k : string) (d : list (string * V)) :
  dict_get k (dict_del k d) = None.
Proof.
  induction d as [|[k' v] d IH]; [reflexivity|]. cbn [dict_del].
  destruct (String.eqb k' k) eqn:E; [exact IH|]. cbn [dict_get]. rewrite E. exact IH.
Qed.

Lemma dict_get_del_other {V} (k k0 : string) (d : list (string * V)) :
  k0 <> k -> dict_get k0 (dict_del k d) = dict_get k0 d.
Proof.
  intros Hk. induction d as [|[k' v] d IH]; [reflexivity|]. cbn [dict_del dict_get].
  destruct (String.eqb_spec k' k) as [->|Hn].
  - rewrite IH. destruct (String.eqb_spec k k0); [congruence | reflexivity].
  - cbn [dict_get]. rewrite IH. reflexivity.
Qed.

Lemma not_session_key (k : string) :
  has_column k (map fst session_defaults) = false ->
  k <> "query" /\ k <> "basic_filters" /\ k <> "adv_filters" /\
  k <> "keep_latest_only" /\ k <> "date_range".
Proof.
  intros H. repeat split; intros ->; discriminate H.
Qed.

Lemma reset_spec (st : session_state) (k : string) :
  dict_get k (reset st) =
  if has_column k (map fst session_defaults) then None else dict_get k st.
Proof.
  unfold reset. cbn [fold_left].
  destruct (has_column k (map fst session_defaults)) eqn:Hk.
  - apply has_column_In in Hk. cbn [map fst session_defaults In] in Hk.
    repeat (destruct Hk as [<-|Hk];
            [repeat first
               [ rewrite dict_get_del_same; reflexivity
               | rewrite dict_get_del_other by discriminate ]|]).
    contradiction.
  - destruct (not_session_key k Hk) as [H1 [H2 [H3 [H4 H5]]]].
    rewrite !dict_get_del_other by assumption. reflexivity.
Qed.

Lemma load_defaults_spec (st : session_state) (d : list (string * state_value)) :
  dict_get "defaults" st = Some (VDict d) ->
  exists st',
    load_defaults st = Some st' /\
    (forall k dflt, In (k, dflt) session_defaults ->
       dict_get k st' = Some (dict_get_default k dflt d)) /\
    (forall k, has_column k (map fst session_defaults) = false ->
       dict_get k st' = dict_get k st).
Proof.
  intros Hd. unfold load_defaults, dict_get_default at 1. rewrite Hd. cbv zeta.
  eexists. split; [reflexivity|]. split.
  - intros k dflt Hin. cbn [session_defaults In] in Hin.
    repeat (destruct Hin as [Hin|Hin];
            [injection Hin as <- <-;
             repeat first
               [ rewrite dict_get_set_same; reflexivity
               | rewrite dict_get_set_other by discriminate ]|]).
    contradiction.
  - intros k Hk. destruct (not_session_key k Hk) as [H1 [H2 [H3 [H4 H5]]]].
    rewrite !dict_get_set_other by assumption. reflexivity.
Qed.

(** X20. Saved defaults come back.  Reset removes the five keys of the
    query and nothing else, so the saved defaults survive it; and once
    Save defaults has run on a state, Load defaults on any later state
    that still holds what was saved sets each of the five keys to the
    value it had when saved (or to its default, when it was absent then)
    and leaves every other key as it is. *)
Theorem defaults_round_trip (st later : session_state) :
  (forall s k, dict_get k (reset s) =
               if has_column k (map fst session_defaults) then None else dict_get k s) /\
  (dict_get "defaults" later = dict_get "defaults" (save_defaults st) ->
   exists st',
     load_defaults later = Some st' /\
     (forall k dflt, In (k, dflt) session_defaults ->
        dict_get k st' = Some (dict_get_default k dflt st)) /\
     (forall k, has_column k (map fst session_defaults) = false ->
        dict_get k st' = dict_get k later)).
Proof.
  split; [intros s k; apply reset_spec|].
  intros Hl. unfold save_defaults in Hl. rewrite dict_get_set_same in Hl.
  destruct (load_defaults_spec later _ Hl) as [st' [Hload [Hkeys Hrest]]].
  exists st'. split; [exact Hload|]. split; [|exact Hrest].
  intros k dflt Hin. rewrite (Hkeys k dflt Hin).
  cbn [session_defaults In] in Hin.
  repeat (destruct Hin as [Hin|Hin]; [injection Hin as <- <-; reflexivity|]).
  contradiction.
Qed.

Lemma defaults_round_trip_witness :
  exists st',
    load_defaults
      (reset (save_defaults [("query", VStr "chip"); ("keep_latest_only", VBool true)]))
    = Some st' /\
    dict_get "query" st' = Some (VStr "chip") /\
    dict_get "keep_latest_only" st' = Some (VBool true) /\
    dict_get "basic_filters" st' = Some (VDict []).
Proof.
  destruct (proj2 (defaults_round_trip
                     [("query", VStr "chip"); ("keep_latest_only", VBool true)]
                     (reset (save_defaults
                               [("query", VStr "chip"); ("keep_latest_only", VBool true)]))))
    as [st' [Hload [Hkeys _]]]; [reflexivity|].
  exists st'. split; [exact Hload|].
  split; [|split].
  - apply (Hkeys "query" (VStr EmptyString)). left. reflexivity.
  - apply (Hkeys "keep_latest_only" (VBool false)). do 3 right. left. reflexivity.
  - apply (Hkeys "basic_filters" (VDict [])). right. left. reflexivity.
Defined.
